(** * The playground terminal: PgTerminal and PgTerm

    A shallow embedding of the terminal front end of the playground client
    (the source file declaring [PgTerminal] and [PgTerm]) and the proofs of
    the properties stated about it.

    JavaScript strings are sequences of UTF-16 code units; they are modelled
    as lists of code units, so that the white space of [trim] and of the
    regular expression class [\s] is the one of the language, not only the
    ASCII part of it. *)

From Stdlib Require Import String Ascii List NArith ZArith Bool Lia.
From Stdlib Require Import Permutation.
From Equations Require Import Equations.
Import ListNotations.

(* ================================================================= *)
(** ** JavaScript strings *)

Module Js.

(** A UTF-16 code unit. *)
Definition char := N.

Definition jsstring := list char.

(** The code units of an ASCII literal of the source. *)
Definition lit (s : string) : jsstring :=
  map N_of_ascii (list_ascii_of_string s).

Definition LF : jsstring := [10%N].
Definition ESC : jsstring := [27%N].

Definition jsstring_eq_dec : forall a b : jsstring, {a = b} + {a <> b} :=
  list_eq_dec N.eq_dec.

(** [a === b] on strings. *)
Definition streq (a b : jsstring) : bool :=
  if jsstring_eq_dec a b then true else false.

(** A value that is a string or [undefined]: what indexing a string or an
    array of strings gives. *)
Inductive jsval :=
| JUndefined
| JString (s : jsstring).

(** String conversion of a value inside a template literal. *)
Definition toStr (v : jsval) : jsstring :=
  match v with
  | JUndefined => lit "undefined"
  | JString s => s
  end.

(** Line terminators of the language: LF, CR, LS, PS. *)
Definition isLineTerminator (c : char) : bool :=
  (N.eqb c 10 || N.eqb c 13 || N.eqb c 8232 || N.eqb c 8233)%N.

(** White space of [String.prototype.trim] and of the class [\s]:
    TAB, VT, FF, SP, NBSP, ZWNBSP, the space separators and the line
    terminators. *)
Definition isWhiteSpace (c : char) : bool :=
  (N.eqb c 9 || N.eqb c 11 || N.eqb c 12 || N.eqb c 32 || N.eqb c 160
   || N.eqb c 5760 || (N.leb 8192 c && N.leb c 8202)
   || N.eqb c 8239 || N.eqb c 8287 || N.eqb c 12288 || N.eqb c 65279
   || isLineTerminator c)%N.

Fixpoint trimStart (s : jsstring) : jsstring :=
  match s with
  | c :: t => if isWhiteSpace c then trimStart t else s
  | [] => []
  end.

Definition trimEnd (s : jsstring) : jsstring :=
  rev (trimStart (rev s)).

(** [s.trim()] *)
Definition trim (s : jsstring) : jsstring := trimEnd (trimStart s).

(** [s.split(sep)] for a separator of one code unit, the only use the
    source makes of it: the result always has at least one element. *)
Fixpoint split (sep : char) (s : jsstring) : list jsstring :=
  match s with
  | [] => [[]]
  | c :: t =>
      if N.eqb c sep then [] :: split sep t
      else match split sep t with
           | p :: ps => (c :: p) :: ps
           | [] => [[c]]
           end
  end.

(** [a[i]] on an array of strings. *)
Definition at_ (a : list jsstring) (i : nat) : jsval :=
  match nth_error a i with
  | Some s => JString s
  | None => JUndefined
  end.

(** [s[i]] on a string, for an integer index that may be negative. *)
Definition charAt (s : jsstring) (i : Z) : jsval :=
  if (i <? 0)%Z then JUndefined
  else match nth_error s (Z.to_nat i) with
       | Some c => JString [c]
       | None => JUndefined
       end.

(** [s.startsWith(p)] *)
Fixpoint startsWith (s p : jsstring) {struct p} : bool :=
  match p, s with
  | [], _ => true
  | _ :: _, [] => false
  | d :: p', c :: s' => N.eqb c d && startsWith s' p'
  end.

(** [s.endsWith(p)] *)
Definition endsWith (s p : jsstring) : bool :=
  startsWith (rev s) (rev p).

(** The first position at or after [k] (counted from the start of the whole
    string, of which [s] is the part from [k] on) where [p] occurs. *)
Fixpoint search (s p : jsstring) (k : nat) : option nat :=
  if startsWith s p then Some k
  else match s with
       | [] => None
       | _ :: t => search t p (S k)
       end.

Definition clamp (i : Z) (len : nat) : nat :=
  Nat.min (Z.to_nat i) len.

(** [s.indexOf(p, from)], -1 when there is no occurrence. *)
Definition indexOf (s p : jsstring) (from : Z) : Z :=
  let f := clamp from (length s) in
  match search (skipn f s) p f with
  | Some k => Z.of_nat k
  | None => (-1)%Z
  end.

(** [s.includes(p)] *)
Definition includes (s p : jsstring) : bool :=
  match search s p 0 with
  | Some _ => true
  | None => false
  end.

(** [s.substring(a, b)]: both ends clamped to the string, swapped when out
    of order. *)
Definition substring (s : jsstring) (a b : Z) : jsstring :=
  let a' := clamp a (length s) in
  let b' := clamp b (length s) in
  let lo := Nat.min a' b' in
  let hi := Nat.max a' b' in
  firstn (hi - lo) (skipn lo s).

(** [s.substring(a)] *)
Definition substringFrom (s : jsstring) (a : Z) : jsstring :=
  skipn (clamp a (length s)) s.

(** [s.replace(p, r)] for a string pattern: the first occurrence only.  The
    replacements of the source hold no [$], so they are inserted as they
    are. *)
Definition replace (s p r : jsstring) : jsstring :=
  match search s p 0 with
  | Some k => firstn k s ++ r ++ skipn (k + length p) s
  | None => s
  end.

(** Left to right replacement of every occurrence that does not overlap an
    earlier one; [skip] counts the code units of the current occurrence
    still to be dropped. *)
Fixpoint replaceAllFrom (p r s : jsstring) (skip : nat) : jsstring :=
  match s with
  | [] => []
  | c :: t =>
      match skip with
      | S k => replaceAllFrom p r t k
      | O =>
          if startsWith s p then r ++ replaceAllFrom p r t (length p - 1)
          else c :: replaceAllFrom p r t 0
      end
  end.

(** [s.replaceAll(p, r)] for a string pattern, and [s.replace(/p/g, r)] for
    a pattern without metacharacters.  The empty pattern occurs between any
    two code units and at both ends. *)
Definition replaceAll (s p r : jsstring) : jsstring :=
  match p with
  | [] => r ++ flat_map (fun c => c :: r) s
  | _ :: _ => replaceAllFrom p r s 0
  end.

End Js.

Import Js.

(* ================================================================= *)
(** ** Effects of the static class [PgTerminal] *)

(** The members of [TerminalAction] that the terminal dispatches. *)
Inductive TerminalAction :=
| buildStart
| walletConnectOrSetupStart
| deployStart.

Inductive WasmPkg :=
| SOLANA_CLI.

(** The [detail] object of a custom event. *)
Inductive detail :=
| DetailNone
| DetailMsg (msg : jsstring)
| DetailAction (action : TerminalAction)
| DetailEnabled (enabled : bool)
| DetailPkg (pkg : WasmPkg).

(** One of the contextual arguments handed to the Solana CLI package. *)
Inductive cliArg :=
| ArgString (s : jsstring)
| ArgBytes (bytes : list N).

(** What a call of [PgTerminal] does to the outside: it dispatches a custom
    event, calls the loaded package, or arms a timer with a callback. *)
#[warnings="-register-all"] Inductive effect :=
| Dispatch (name : jsstring) (d : detail)
| CallParseSolana (cmd : jsstring) (args : list cliArg)
| SetTimeout (callback : list effect) (ms : N).

(** A computation that returns a value and the effects it had, in order. *)
Definition Eff (A : Type) : Type := (A * list effect)%type.

Definition ret {A} (a : A) : Eff A := (a, []).

Definition bind {A B} (m : Eff A) (k : A -> Eff B) : Eff B :=
  let (a, e1) := m in
  let (b, e2) := k a in
  (b, e1 ++ e2).

Definition emit (e : effect) : Eff unit := (tt, [e]).

Definition returned {A} (m : Eff A) : A := fst m.
Definition effects {A} (m : Eff A) : list effect := snd m.

Declare Scope eff_scope.
Delimit Scope eff_scope with eff.
Notation "m ;; k" := (bind m (fun _ => k))
  (at level 61, right associativity) : eff_scope.
Notation "x <- m ;; k" := (bind m (fun x => k))
  (at level 61, m at next level, right associativity) : eff_scope.

(** What [parseCommand] reads from its collaborators: the connection
    settings, the wallet's key pair, and the answer of
    [PgWallet.checkIsPgConnected()]. *)
Record Env := {
  endpoint : jsstring;
  commitment : jsstring;
  keypairBytes : list N;
  isPgConnected : bool
}.

(** The loaded package object: [parseSolana] tells whether it has the
    function of that name, which is what [wasm?.parseSolana] tests. *)
Record Wasm := {
  parseSolana : bool
}.

(** The outcome of a call that can throw. *)
Inductive exn :=
| TypeError.

Inductive result (A : Type) : Type :=
| Ok (a : A)
| Throw (e : exn).

Arguments Ok {A} a.
Arguments Throw {A} e.

Definition rbind {A B} (m : result A) (k : A -> result B) : result B :=
  match m with
  | Ok a => k a
  | Throw e => Throw e
  end.

Declare Scope res_scope.
Delimit Scope res_scope with res.
Notation "x <- m ;; k" := (rbind m (fun x => k))
  (at level 61, m at next level, right associativity) : res_scope.

(** Reading a property or calling a method of a value: a [TypeError] on
    [undefined]. *)
Definition deref (v : jsval) : result jsstring :=
  match v with
  | JString s => Ok s
  | JUndefined => Throw TypeError
  end.

(** The colour a keyword is printed in. *)
Inductive TextState :=
| SUCCESS
| ERROR
| WARNING
| INFO
| PRIMARY.

Record TextInfo := {
  text : jsstring;
  textState : TextState
}.

Module PgTerminal.

Open Scope eff_scope.

Definition HELP_TEXT : jsstring :=
  lit "COMMANDS:" ++ LF ++
  lit "  build                      Build your program" ++ LF ++
  lit "  connect                    Toggle connection to Playground Wallet"
  ++ LF ++
  lit "  deploy                     Deploy your program" ++ LF ++
  lit "  solana                     Access Solana CLI commands" ++ LF.

Definition PROMPT : jsstring := lit "$ ".

Definition EVT_NAME_TERMINAL_LOG := lit "terminallog".
Definition EVT_NAME_TERMINAL_STATE := lit "terminalstate".
Definition EVT_NAME_TERMINAL_ENABLE := lit "terminalenable".
Definition EVT_NAME_TERMINAL_DISABLE := lit "terminaldisable".
Definition EVT_NAME_LOAD_WASM := lit "terminalloadwasm".
Definition EVT_NAME_RUN_LAST_CMD := lit "terminalrunlastcmd".

Definition success (text : jsstring) : jsstring :=
  ESC ++ lit "[1;32m" ++ text ++ ESC ++ lit "[0m".

Definition bold (text : jsstring) : jsstring :=
  ESC ++ lit "[1m" ++ text ++ ESC ++ lit "[0m".

Definition error (text : jsstring) : jsstring :=
  ESC ++ lit "[1;31m" ++ text ++ ESC ++ lit "[0m".

Definition warning (text : jsstring) : jsstring :=
  ESC ++ lit "[1;33m" ++ text ++ ESC ++ lit "[0m".

Definition info (text : jsstring) : jsstring :=
  ESC ++ lit "[1;34m" ++ text ++ ESC ++ lit "[0m".

Definition primary (text : jsstring) : jsstring :=
  ESC ++ lit "[1;35m" ++ text ++ ESC ++ lit "[0m".

Definition italic (text : jsstring) : jsstring :=
  ESC ++ lit "[3m" ++ text ++ ESC ++ lit "[0m".

Definition underline (text : jsstring) : jsstring :=
  ESC ++ lit "[4m" ++ text ++ ESC ++ lit "[0m".

(** These text-state pairs are used to give colours before printing. *)
Definition TEXTS : list TextInfo :=
  [ {| text := lit "error"; textState := ERROR |};
    {| text := lit "Error"; textState := ERROR |};
    {| text := lit "warning"; textState := WARNING |};
    {| text := lit "USAGE:"; textState := PRIMARY |};
    {| text := lit "OPTIONS:"; textState := PRIMARY |};
    {| text := lit "SUBCOMMANDS:"; textState := PRIMARY |};
    {| text := lit "COMMANDS:"; textState := PRIMARY |} ].

Definition getColorFromState (textInfo : TextInfo) : jsstring :=
  match textState textInfo with
  | SUCCESS => success (text textInfo)
  | ERROR => error (text textInfo)
  | WARNING => warning (text textInfo)
  | INFO => info (text textInfo)
  | PRIMARY => primary (text textInfo)
  end.

(** The loop of [colorText] over a list of pairs: each keyword in turn is
    replaced everywhere in the text the earlier replacements left.  No
    replacement text of [getColorFromState] holds a [$]. *)
Definition colorTextWith (texts : list TextInfo) (s : jsstring) : jsstring :=
  fold_left
    (fun s textInfo => replaceAll s (text textInfo)
                                  (getColorFromState textInfo))
    texts s.

Definition colorText (s : jsstring) : jsstring := colorTextWith TEXTS s.

(** The class of the regular expression of [isCharValid]: a word character
    (letter, digit, underscore) or one of the signs listed in it, the last
    of which here is the double quote. *)
Definition isWordChar (c : char) : bool :=
  ((N.leb 65 c && N.leb c 90) || (N.leb 97 c && N.leb c 122)
   || (N.leb 48 c && N.leb c 57) || N.eqb c 95)%N.

Definition validSigns : jsstring :=
  lit ".-/+\=':;|,?><`~!@#$%^&*()[]{} " ++ [34%N].

Definition inValidClass (c : char) : bool :=
  isWordChar c || existsb (N.eqb c) validSigns.

(** [isCharValid]: whether the match succeeds, that is, whether the string
    is one or more code units of the class and nothing else. *)
Definition isCharValid (s : jsstring) : bool :=
  match s with
  | [] => false
  | _ :: _ => forallb inValidClass s
  end.

Definition setTerminalState (action : TerminalAction) : Eff unit :=
  emit (Dispatch EVT_NAME_TERMINAL_STATE (DetailAction action)).

Definition enable : Eff unit :=
  emit (Dispatch EVT_NAME_TERMINAL_ENABLE (DetailEnabled true)).

Definition disable : Eff unit :=
  emit (Dispatch EVT_NAME_TERMINAL_DISABLE (DetailEnabled false)).

Definition logWasm (msg : jsstring) : Eff unit :=
  emit (Dispatch EVT_NAME_TERMINAL_LOG (DetailMsg msg)).

Definition loadWasm (pkg : WasmPkg) : Eff unit :=
  emit (Dispatch EVT_NAME_LOAD_WASM (DetailPkg pkg)).

Definition runLastCmd : Eff unit :=
  emit (Dispatch EVT_NAME_RUN_LAST_CMD DetailNone).

(** [PgWallet.checkIsPgConnected()]: the answer of the wallet; what the
    wallet itself does when asked is not part of this class. *)
Definition checkIsPgConnected (env : Env) : bool := isPgConnected env.

Definition getSolanaCliArgs (env : Env) : list cliArg :=
  let args := [] in
  let args := args ++ [ArgString (endpoint env)] in
  let args := args ++ [ArgString (commitment env)] in
  let args := args ++ [ArgBytes (keypairBytes env)] in
  args.

(** [cmdName === "solana"], for [cmdName] a string or [undefined]. *)
Definition valeq (v : jsval) (s : jsstring) : bool :=
  match v with
  | JString t => streq t s
  | JUndefined => false
  end.

Definition parseCommand (env : Env) (cmd : jsstring) (wasm : option Wasm)
  : Eff bool :=
  let cmd := trim cmd in
  if streq cmd (lit "help") then
    logWasm HELP_TEXT ;; enable ;; ret true
  else if streq cmd (lit "build") then
    setTerminalState buildStart ;; ret true
  else if streq cmd (lit "connect") then
    setTerminalState walletConnectOrSetupStart ;; ret true
  else if streq cmd (lit "deploy") then
    (if checkIsPgConnected env then setTerminalState deployStart
     else ret tt) ;;
    ret true
  else
    let cmdName := at_ (split 32%N cmd) 0 in
    if valeq cmdName (lit "solana") then
      (match wasm with
       | Some w =>
           if parseSolana w then
             if checkIsPgConnected env then
               emit (CallParseSolana cmd (getSolanaCliArgs env)) ;;
               emit (SetTimeout (effects enable) 1000)
             else ret tt
           else loadWasm SOLANA_CLI
       | None => loadWasm SOLANA_CLI
       end) ;;
      ret true
    else ret false.

(** *** [editStderr] *)

(** The number of code units of [s] before its first white space. *)
Fixpoint untilSpace (s : jsstring) : option nat :=
  match s with
  | [] => None
  | c :: t => if isWhiteSpace c then Some 0 else option_map S (untilSpace t)
  end.

(** The length of the match of [/\s\(\/home.+?(?=\s)/] at the start of [s]:
    a white space, the text [(/home], then as few code units as possible,
    at least one and none a line terminator, up to a white space that is
    not part of the match. *)
Definition matchFullPath (s : jsstring) : option nat :=
  match s with
  | c :: t =>
      if isWhiteSpace c && startsWith t (lit "(/home") then
        match skipn 6 t with
        | d :: r =>
            if isLineTerminator d then None
            else option_map (fun n => 8 + n) (untilSpace r)
        | [] => None
        end
      else None
  | [] => None
  end.

(** Whether the expression matches somewhere in [s]. *)
Fixpoint testFullPath (s : jsstring) : bool :=
  match matchFullPath s with
  | Some _ => true
  | None => match s with
            | [] => false
            | _ :: t => testFullPath t
            end
  end.

(** [s.replace(/\s\(\/home.+?(?=\s)/g, "")], with [skip] code units of the
    current match still to drop. *)
Fixpoint removeFullPathFrom (s : jsstring) (skip : nat) : jsstring :=
  match s with
  | [] => []
  | c :: t =>
      match skip with
      | S k => removeFullPathFrom t k
      | O =>
          match matchFullPath s with
          | Some n => removeFullPathFrom t (n - 1)
          | None => c :: removeFullPathFrom t 0
          end
      end
  end.

Definition COMPILING : jsstring := lit "Compiling solpg v0.1.0" ++ LF.

(** None of the string operations below can throw, whatever the two
    strings are: the function is total. *)
Definition editStderr (stderr uuid : jsstring) : jsstring :=
  (* Remove full path *)
  let stderr := removeFullPathFrom stderr 0 in
  (* Remove uuid from folders *)
  let stderr := replaceAll stderr uuid [] in
  (* Remove rustc error line *)
  let startIndex := indexOf stderr (lit "For more") 0 in
  let stderr :=
    if (startIndex =? -1)%Z then stderr
    else
      let endIndex := indexOf stderr LF startIndex in
      substring stderr 0 startIndex ++ substringFrom stderr (endIndex + 1) in
  (* Remove Compiling message *)
  let stderr := replace stderr COMPILING [] in
  (* Remove whitespace before 'Finished' *)
  let startIndex := indexOf stderr (lit "Finished release") 0 in
  if (startIndex =? -1)%Z then stderr
  else
    let whiteSpaceStartIndex := (startIndex - 7)%Z in
    substring stderr 0 whiteSpaceStartIndex ++
    replaceAll (substring stderr whiteSpaceStartIndex startIndex)
               (lit " ") [] ++
    success (lit "Build successful. ") ++
    lit "Completed" ++
    replace (substringFrom stderr (indexOf stderr (lit " in") startIndex))
            LF (lit "." ++ LF).

(** *** [convertErrorMessage] *)

Section ConvertErrorMessage.

(** The error tables of the constants module, each an object from message or
    code to text, as the list of its entries in the order [for ... in]
    visits them; an object holds a key once, so [TABLE[key]] inside such a
    loop is the text listed with the key. *)
Variables PROGRAM_ERROR RPC_ERROR SERVER_ERROR OTHER_ERROR
  : list (jsstring * jsstring).

(** [PgCommon.isInt], called with what indexing a string gives. *)
Variable isInt : jsval -> bool.

(** The case mappings of the language. *)
Variables toLowerCase toUpperCase : jsstring -> jsstring.

Open Scope res_scope.

Definition convertErrorMessage (msg : jsstring) : result jsstring :=
  (* Hex program errors *)
  match find (fun e => endsWith msg (lit "0x" ++ toLowerCase (fst e)))
             PROGRAM_ERROR with
  | Some (programErrorCode, programError) =>
      let parts := split 58%N msg in
      p2 <- deref (at_ parts 2) ;;
      let ixIndex := charAt p2 (Z.of_nat (length p2) - 1) in
      let ixIndex := if isInt ixIndex then ixIndex else JString (lit "0") in
      Ok (LF ++ bold (lit "Instruction index:") ++ lit " " ++ toStr ixIndex ++
          LF ++ bold (lit "Reason:") ++ lit " " ++ programError)
  | None =>
  (* Descriptive program errors *)
  if startsWith msg (lit "failed to send") then
    let parts := split 58%N msg in
    if length parts =? 4 then
      (* With ix index *)
      p2 <- deref (at_ parts 2) ;;
      let ixIndex := charAt p2 (Z.of_nat (length p2) - 1) in
      p3 <- deref (at_ parts 3) ;;
      c <- deref (charAt p3 1) ;;
      let programError := toUpperCase c ++ substringFrom p3 2 in
      Ok (LF ++ bold (lit "Instruction index:") ++ lit " " ++ toStr ixIndex ++
          LF ++ bold (lit "Reason:") ++ lit " " ++ programError ++ lit ".")
    else
      (* Without ix index *)
      p2 <- deref (at_ parts 2) ;;
      c <- deref (charAt p2 1) ;;
      let programError := toUpperCase c ++ substringFrom p2 2 in
      Ok (LF ++ bold (lit "Reason:") ++ lit " " ++ programError ++ lit ".")
  else
  (* Rpc errors *)
  match find (fun e => includes msg (fst e)) RPC_ERROR with
  | Some (rpcError, text) => Ok text
  | None =>
  (* Server errors *)
  match find (fun e => streq msg (fst e)) SERVER_ERROR with
  | Some (serverError, text) => Ok text
  | None =>
  (* Other errors *)
  match find (fun e => streq msg (fst e)) OTHER_ERROR with
  | Some (otherError, text) => Ok text
  | None => Ok msg
  end end end end.

End ConvertErrorMessage.

End PgTerminal.

(* ================================================================= *)
(** ** The collaborators of [PgTerm]

    [PgTerm] drives a display buffer manager ([PgTty]) and a line editor
    ([PgShell]); both are declared in modules of their own (["./tty"] and
    ["./shell"]), and are described here by their state and by what the
    operations [PgTerm] calls do to it. *)

(** Modelled from the spec: the states of the line editor of ["./shell"]. *)
Inductive ShellState :=
| Idle
| Prompting
| Dispatching.

(** Modelled from the spec: what the display buffer manager of ["./tty"]
    sends to the display: a print, the clearing of the rendered input, the
    rendering of the prompt and the input. *)
Inductive ttyOp :=
| OpPrint (text : jsstring) (sync : option bool)
| OpClearInput
| OpRenderInput (text : jsstring).

(** Modelled from the spec: the state of [PgTty] of ["./tty"]: the
    InputLine (text and cursor offset), the cached size (columns, rows) and
    the operations sent to the display so far. *)
Record PgTty := {
  _input : jsstring;
  _cursor : nat;
  _termSize : N * N;
  display : list ttyOp
}.

(** Modelled from the spec: the state of [PgShell] of ["./shell"]: the
    state of the editor, the history (oldest entry first) and the lines
    handed to the command dispatcher so far. *)
Record PgShell := {
  state : ShellState;
  history : list jsstring;
  submitted : list jsstring
}.

(** Modelled from the spec: the invariant of the InputLine, the cursor
    offset lies within the text. *)
Definition cursorInRange (t : PgTty) : Prop :=
  _cursor t <= length (_input t).

Module PgTty.

(** Modelled from the spec: [PgTty.getInput] of ["./tty"], the accessor of
    the InputLine text. *)
Definition getInput (t : PgTty) : jsstring := _input t.

(** Modelled from the spec: [PgTty.print] of ["./tty"], the write of the
    display buffer manager: the text is appended to what the display
    shows; the InputLine and the size are not touched. *)
Definition print (message : jsstring) (sync : option bool) (t : PgTty)
  : PgTty :=
  {| _input := _input t; _cursor := _cursor t; _termSize := _termSize t;
     display := display t ++ [OpPrint message sync] |}.

(** Modelled from the spec: [PgTty.clearInput] of ["./tty"], which clears
    the rendered input: the rendering goes, the InputLine stays. *)
Definition clearInput (t : PgTty) : PgTty :=
  {| _input := _input t; _cursor := _cursor t; _termSize := _termSize t;
     display := display t ++ [OpClearInput] |}.

(** Modelled from the spec: [PgTty.setTermSize] of ["./tty"], which updates
    the cached dimensions and by itself mutates no content. *)
Definition setTermSize (cols rows : N) (t : PgTty) : PgTty :=
  {| _input := _input t; _cursor := _cursor t; _termSize := (cols, rows);
     display := display t |}.

(** Modelled from the spec: [PgTty.setInput] of ["./tty"], which makes
    [newInput] the InputLine and renders it after the prompt.  The cursor
    offset is kept, cut to the new text where it would pass its end, as the
    invariant of the InputLine asks.  The rendering is cleared first unless
    the second argument is set, which the resize handler does after having
    cleared it under the previous size. *)
Definition setInput (newInput : jsstring) (shouldNotClearInput : bool)
  (t : PgTty) : PgTty :=
  let t := if shouldNotClearInput then t else clearInput t in
  {| _input := newInput;
     _cursor := Nat.min (_cursor t) (length newInput);
     _termSize := _termSize t;
     display := display t ++ [OpRenderInput (PgTerminal.PROMPT ++ newInput)] |}.

End PgTty.

Module PgShell.

(** Modelled from the spec: [PgShell.isPrompting] of ["./shell"]: true
    exactly in the state [Prompting]. *)
Definition isPrompting (s : PgShell) : bool :=
  match state s with
  | Prompting => true
  | _ => false
  end.

(** Modelled from the spec: [history.getPrevious] of ["./shell"], the
    recall of the most recent entry of the history; nothing is recalled
    from an empty history. *)
Definition getPrevious (s : PgShell) : option jsstring :=
  last (map Some (history s)) None.

(** Modelled from the spec: [PgShell.printAndRestartPrompt] of
    ["./shell"]: the rendering of prompt and input is cleared,
    [beforePrint] runs, then the prompt is drawn again with the InputLine
    as it was. *)
Definition printAndRestartPrompt (beforePrint : PgTty -> PgTty)
  (t : PgTty) : PgTty :=
  let input := PgTty.getInput t in
  let t := PgTty.clearInput t in
  let t := beforePrint t in
  PgTty.setInput input true t.

(** Modelled from the spec: [PgShell.handleReadComplete] of ["./shell"],
    the submit: the InputLine is frozen as the submitted command, appended
    to the history if it is not empty, and cleared; the editor goes to
    [Dispatching] and the text is handed to the command dispatcher. *)
Definition handleReadComplete (st : PgShell * PgTty) : PgShell * PgTty :=
  let (s, t) := st in
  let line := PgTty.getInput t in
  ({| state := Dispatching;
      history := match line with
                 | [] => history s
                 | _ :: _ => history s ++ [line]
                 end;
      submitted := submitted s ++ [line] |},
   {| _input := []; _cursor := 0; _termSize := _termSize t;
      display := display t |}).

End PgShell.

(* ================================================================= *)
(** ** [PgTerm] *)

Record PgTerm := {
  isOpen : bool;
  pgTty : PgTty;
  pgShell : PgShell
}.

Module PgTerm.

Definition withTty (this : PgTerm) (t : PgTty) : PgTerm :=
  {| isOpen := isOpen this; pgTty := t; pgShell := pgShell this |}.

Definition withBoth (this : PgTerm) (st : PgShell * PgTty) : PgTerm :=
  {| isOpen := isOpen this; pgTty := snd st; pgShell := fst st |}.

(** The text [print] works with after its first statement:
    [message.replace(/\n\n/g, "\n \n")]. *)
Definition respace (message : jsstring) : jsstring :=
  replaceAll message (LF ++ LF) (LF ++ lit " " ++ LF).

Definition print (message : jsstring) (sync : option bool) (this : PgTerm)
  : PgTerm :=
  (* For some reason, double new lines are not respected. *)
  let message := respace message in
  if negb (isOpen this) then this
  else if PgShell.isPrompting (pgShell this) then
    (* Cancel the current prompt and restart *)
    withTty this
      (PgShell.printAndRestartPrompt
         (fun t => PgTty.print (message ++ LF) sync t) (pgTty this))
  else withTty this (PgTty.print message sync (pgTty this)).

Definition println (message : jsstring) (sync : option bool)
  (this : PgTerm) : PgTerm :=
  print (message ++ LF) sync this.

Definition runCommand (line : jsstring) (this : PgTerm) : PgTerm :=
  if PgShell.isPrompting (pgShell this) then
    let this := withTty this (PgTty.setInput line false (pgTty this)) in
    withBoth this (PgShell.handleReadComplete (pgShell this, pgTty this))
  else this.

(** The notification of a resize: [data.rows] and [data.cols]. *)
Record ResizeData := {
  rows : N;
  cols : N
}.

Definition handleTermResize (data : ResizeData) (this : PgTerm) : PgTerm :=
  let this := withTty this (PgTty.clearInput (pgTty this)) in
  let this := withTty this (PgTty.setTermSize (cols data) (rows data)
                                              (pgTty this)) in
  withTty this (PgTty.setInput (PgTty.getInput (pgTty this)) true
                               (pgTty this)).

(** [runLastCmd] hands what [getPrevious] recalls to [setInput]; with an
    empty history there is no such line, and no result is given. *)
Definition runLastCmd (this : PgTerm) : option PgTerm :=
  match PgShell.getPrevious (pgShell this) with
  | Some line =>
      let this := withTty this (PgTty.setInput line false (pgTty this)) in
      Some (withBoth this
              (PgShell.handleReadComplete (pgShell this, pgTty this)))
  | None => None
  end.

End PgTerm.

(* ================================================================= *)
(** ** [processDeploy]

    The deploy command of the candy machine tool: the parts of it that
    compute, with what its collaborators (the cache, the configuration, the
    candy machine client) give taken as arguments. *)

(** A value together with the proof of what it is, for a case analysis
    that keeps the equation. *)
Definition inspect {A : Type} (a : A) : {b : A | a = b} :=
  exist _ a eq_refl.

Module ProcessDeploy.

(** An item of [cache.items], with the fields the command reads. *)
Record CacheItem := {
  name : jsval;
  metadata_link : jsval;
  onChain : bool
}.

(** Whether a string or [undefined] counts as true: [undefined] and the
    empty string do not. *)
Definition truthy (v : jsval) : bool :=
  match v with
  | JString (_ :: _) => true
  | _ => false
  end.

Section CheckItems.

(** [checkName] of the validation module: the message of the error it
    throws on a name, if it throws. *)
Variable checkName : jsstring -> option jsstring.

(** The loop that checks that all metadata information is present:
    [cache.items] as the list of its entries in the order [for ... in]
    visits them.  The result is the message of the error the loop throws,
    [None] when it ends. *)
Fixpoint checkItems (items : list (jsstring * CacheItem)) : option jsstring :=
  match items with
  | [] => None
  | (index, item) :: rest =>
      if negb (truthy (name item)) then
        Some (lit "Missing name in metadata index " ++ index)
      else
        match checkName (toStr (name item)) with
        | Some message => Some message
        | None =>
            if negb (truthy (metadata_link item)) then
              Some (lit "Missing metadata link for cache item " ++ index)
            else checkItems rest
        end
  end.

End CheckItems.

(** [configData.hiddenSettings ? 1 : 0] *)
Definition hidden (hiddenSettings : bool) : Z :=
  if hiddenSettings then 1 else 0.

(** [cache.items["-1"] ? 1 : 0]: an item is an object, so it counts as true
    whenever the key is there. *)
Definition collectionInCache (items : list (jsstring * CacheItem)) : Z :=
  if existsb (fun e => streq (fst e) (lit "-1")) items then 1 else 0.

(** [Object.keys(cache.items).length - collectionInCache] *)
Definition cacheItemsSansCollection (items : list (jsstring * CacheItem))
  : Z :=
  Z.of_nat (length items) - collectionInCache items.

(** [!candyMachinePkStr ? collectionInCache : 0] *)
Definition collectionStepNumber (candyMachinePkStr : jsval)
  (items : list (jsstring * CacheItem)) : Z :=
  if negb (truthy candyMachinePkStr) then collectionInCache items else 0.

(** [2 + collectionStepNumber - hidden] *)
Definition totalSteps (candyMachinePkStr : jsval)
  (items : list (jsstring * CacheItem)) (hiddenSettings : bool) : Z :=
  2 + collectionStepNumber candyMachinePkStr items - hidden hiddenSettings.

(** [2 + collectionStepNumber], the number shown with
    [Writing config lines]. *)
Definition stepNum (candyMachinePkStr : jsval)
  (items : list (jsstring * CacheItem)) : Z :=
  2 + collectionStepNumber candyMachinePkStr items.

Definition CONCURRENT : nat := 8.

Section ConfigLines.

(** A config line of the candy machine; the command only counts them and
    hands them on. *)
Variable ConfigLine : Type.

(** A chunk of [cache.getConfigLineChunks()]. *)
Record Chunk := {
  items : list ConfigLine;
  indices : list nat
}.

(** [configLineChunks[i].items.length]: a [TypeError] when there is no
    chunk at [i]. *)
Definition chunkSize (configLineChunks : list Chunk) (i : nat)
  : result nat :=
  match nth_error configLineChunks i with
  | Some chunk => Ok (length (items chunk))
  | None => Throw TypeError
  end.

Open Scope res_scope.

(** [new Array(n).fill(null).reduce((acc, _cur, i) => acc + (n === i ? 0 :
    configLineChunks[i].items.length), 0)]: the callback runs for
    [i = 0, ..., n - 1] in turn. *)
Definition getTotalConfigLinesUntilChunkN (configLineChunks : list Chunk)
  (n : nat) : result nat :=
  fold_left
    (fun acc i =>
       acc <- acc ;;
       if n =? i then Ok (acc + 0)
       else size <- chunkSize configLineChunks i ;; Ok (acc + size))
    (seq 0 n) (Ok 0).

(** The loop of the worker [i], from [j] on: the positions of the chunks it
    works on, in order.  The loop ends at the first position with no
    chunk. *)
#[local] Unset Equations With Funext.

Equations? worker (configLineChunks : list Chunk) (i j : nat) : list nat
  by wf (length configLineChunks - (j + i)) lt :=
  worker configLineChunks i j
    with inspect (nth_error configLineChunks (j + i)) => {
    | exist _ (Some currentChunk) _ =>
        (j + i) :: worker configLineChunks i (j + CONCURRENT);
    | exist _ None _ => [] }.
Proof.
  assert (j + i < length configLineChunks)
    by (apply nth_error_Some; congruence).
  unfold CONCURRENT. lia.
Qed.

(** [!configLineChunks[0]?.items.length], the test that leads to
    [All config lines deployed.]: there is no first chunk, or the first
    chunk has no items. *)
Definition allDeployed (configLineChunks : list Chunk) : bool :=
  match nth_error configLineChunks 0 with
  | Some chunk => length (items chunk) =? 0
  | None => true
  end.

(** The positions of the chunks the stage works on, once the command has
    got as far as [if (!hidden)]: those of worker 0 first, then those of
    worker 1, up to worker [CONCURRENT - 1].  The workers are started in
    the branch of [!hidden] only, and there only when the first chunk has
    items and [candyClient.findByAddress] has given the candy machine:
    [found] tells whether it does, the command ending with the error of
    that call when it does not. *)
Definition attempts (hiddenSettings found : bool)
  (configLineChunks : list Chunk) : list nat :=
  if (hidden hiddenSettings =? 0)%Z then
    if allDeployed configLineChunks then []
    else if found then
      flat_map (fun i => worker configLineChunks i 0) (seq 0 CONCURRENT)
    else []
  else [].

(** Whether the [try] block for the chunk at [k] throws: [rejected k] tells
    whether the insertion or the update of the cache that follows it
    does; the computation of [itemsLoaded] is inside the block too. *)
Definition tryFails (rejected : nat -> bool) (configLineChunks : list Chunk)
  (k : nat) : bool :=
  match getTotalConfigLinesUntilChunkN configLineChunks k with
  | Ok _ => rejected k
  | Throw _ => true
  end.

(** How often [errorCount++] and [progressCount++] have run when the
    stage ends: once for each position worked on whose [try] block threw,
    and once for each position worked on; not at all when no worker was
    started. *)
Definition errorCount (rejected : nat -> bool) (hiddenSettings found : bool)
  (configLineChunks : list Chunk) : nat :=
  length (filter (tryFails rejected configLineChunks)
                 (attempts hiddenSettings found configLineChunks)).

Definition progressCount (hiddenSettings found : bool)
  (configLineChunks : list Chunk) : nat :=
  length (attempts hiddenSettings found configLineChunks).

End ConfigLines.

Arguments items {ConfigLine} c.
Arguments indices {ConfigLine} c.
Arguments chunkSize {ConfigLine} configLineChunks i.
Arguments getTotalConfigLinesUntilChunkN {ConfigLine} configLineChunks n.
Arguments worker {ConfigLine} configLineChunks i j.
Arguments allDeployed {ConfigLine} configLineChunks.
Arguments attempts {ConfigLine} hiddenSettings found configLineChunks.
Arguments tryFails {ConfigLine} rejected configLineChunks k.
Arguments errorCount {ConfigLine} rejected hiddenSettings found
  configLineChunks.
Arguments progressCount {ConfigLine} hiddenSettings found configLineChunks.

(** The number of config lines in the chunks before position [n]. *)
Definition linesBefore {ConfigLine : Type}
  (configLineChunks : list (Chunk ConfigLine)) (n : nat) : nat :=
  length (flat_map items (firstn n configLineChunks)).

(** The first chunk is there and has items. *)
Definition firstChunkHasItems {ConfigLine : Type}
  (configLineChunks : list (Chunk ConfigLine)) : Prop :=
  exists chunk rest,
    configLineChunks = chunk :: rest /\ items chunk <> [].

(** The workers are started: there are no hidden settings, the first chunk
    has items, and the candy machine is found. *)
Definition workersStarted {ConfigLine : Type} (hiddenSettings found : bool)
  (configLineChunks : list (Chunk ConfigLine)) : Prop :=
  hiddenSettings = false /\ firstChunkHasItems configLineChunks /\
  found = true.

(** An item is complete: it has a name that [checkName] takes and a
    metadata link. *)
Definition complete (checkName : jsstring -> option jsstring)
  (entry : jsstring * CacheItem) : Prop :=
  truthy (name (snd entry)) = true /\
  checkName (toStr (name (snd entry))) = None /\
  truthy (metadata_link (snd entry)) = true.

(** What the loop throws at one item that is not complete. *)
Definition itemError (checkName : jsstring -> option jsstring)
  (entry : jsstring * CacheItem) : option jsstring :=
  checkItems checkName [entry].

End ProcessDeploy.

(* ================================================================= *)
(** ** Sample collaborators

    Values for the parts the terminal takes from other modules, used where
    a property is shown on a concrete input. *)

Module Sample.

Definition connected : Env :=
  {| endpoint := lit "http://localhost:8899";
     commitment := lit "confirmed";
     keypairBytes := [1; 2; 3]%N;
     isPgConnected := true |}.

Definition disconnected : Env :=
  {| endpoint := lit "http://localhost:8899";
     commitment := lit "confirmed";
     keypairBytes := [1; 2; 3]%N;
     isPgConnected := false |}.

Definition solanaCli : Wasm := {| parseSolana := true |}.

(** Case mappings on the ASCII letters, every other code unit unchanged. *)
Definition lowerChar (c : char) : char :=
  if (N.leb 65 c && N.leb c 90)%N then (c + 32)%N else c.

Definition upperChar (c : char) : char :=
  if (N.leb 97 c && N.leb c 122)%N then (c - 32)%N else c.

Definition toLowerCase (s : jsstring) : jsstring := map lowerChar s.
Definition toUpperCase (s : jsstring) : jsstring := map upperChar s.

(** A decimal digit is the only string of one code unit that reads as an
    integer. *)
Definition isInt (v : jsval) : bool :=
  match v with
  | JString [c] => (N.leb 48 c && N.leb c 57)%N
  | _ => false
  end.

Definition PROGRAM_ERROR : list (jsstring * jsstring) :=
  [(lit "1", lit "Insufficient funds");
   (lit "A", lit "Invalid instruction data")].

Definition RPC_ERROR : list (jsstring * jsstring) :=
  [(lit "403", lit "Rate limit exceeded")].

Definition SERVER_ERROR : list (jsstring * jsstring) :=
  [(lit "Failed to fetch", lit "Unable to reach the server")].

Definition OTHER_ERROR : list (jsstring * jsstring) :=
  [(lit "Buffer is not defined", lit "Unexpected error")].

Definition convert : jsstring -> result jsstring :=
  PgTerminal.convertErrorMessage PROGRAM_ERROR RPC_ERROR SERVER_ERROR
    OTHER_ERROR isInt toLowerCase toUpperCase.

End Sample.

(* ================================================================= *)
(** ** Notions used in the statements *)

(** The code units of [s] before the first one that [delim] accepts. *)
Fixpoint tokenUntil (delim : char -> bool) (s : jsstring) : jsstring :=
  match s with
  | [] => []
  | c :: t => if delim c then [] else c :: tokenUntil delim t
  end.

(** The space character, U+0020. *)
Definition isSpace (c : char) : bool := N.eqb c 32.

Module ParseCommandSpec.

Import PgTerminal.

(** The line is one of the four commands taken as a whole. *)
Definition isBuiltin (line : jsstring) : Prop :=
  line = lit "help" \/ line = lit "build" \/
  line = lit "connect" \/ line = lit "deploy".

(** Recognition as the code does it: on the trimmed line, and for [solana]
    on what precedes its first space (U+0020). *)
Definition recognised (cmd : jsstring) : Prop :=
  isBuiltin (trim cmd) \/ tokenUntil isSpace (trim cmd) = lit "solana".

(** Recognition with the first token delimited by any white space. *)
Definition recognisedByWhiteSpace (cmd : jsstring) : Prop :=
  isBuiltin (trim cmd) \/ tokenUntil isWhiteSpace (trim cmd) = lit "solana".

(** Whether the package with [parseSolana] is there: the test
    [wasm?.parseSolana]. *)
Definition backendLoaded (wasm : option Wasm) : bool :=
  match wasm with
  | Some w => parseSolana w
  | None => false
  end.

(** What the [solana] branch does, by the state of the package and of the
    wallet. *)
Definition solanaEffects (env : Env) (line : jsstring) (wasm : option Wasm)
  : list effect :=
  if backendLoaded wasm then
    if checkIsPgConnected env then
      [CallParseSolana line
         [ArgString (endpoint env); ArgString (commitment env);
          ArgBytes (keypairBytes env)];
       SetTimeout [Dispatch EVT_NAME_TERMINAL_ENABLE (DetailEnabled true)]
                  1000]
    else []
  else [Dispatch EVT_NAME_LOAD_WASM (DetailPkg SOLANA_CLI)].

(** [solana], a tab, [balance]. *)
Definition tabLine : jsstring := lit "solana" ++ [9%N] ++ lit "balance".

End ParseCommandSpec.

Module ConvertErrorMessageSpec.

Import PgTerminal.

(** The message ends in [0x] followed by the lower-cased code of the
    entry. *)
Definition hexSuffix (toLowerCase : jsstring -> jsstring) (msg : jsstring)
  (e : jsstring * jsstring) : bool :=
  endsWith msg (lit "0x" ++ toLowerCase (fst e)).

(** The segments of the message between colons. *)
Definition segments (msg : jsstring) : list jsstring := split 58%N msg.

(** The inputs on which a segment or a code unit that is not there is
    read: a hex suffix with fewer than three segments; or, with no hex
    suffix and the prefix [failed to send], fewer than two code units in the
    segment the reason is taken from, the fourth of exactly four and the
    third otherwise. *)
Definition readsMissing (PROGRAM_ERROR : list (jsstring * jsstring))
  (toLowerCase : jsstring -> jsstring) (msg : jsstring) : Prop :=
  match find (hexSuffix toLowerCase msg) PROGRAM_ERROR with
  | Some _ => length (segments msg) < 3
  | None =>
      startsWith msg (lit "failed to send") = true /\
      if length (segments msg) =? 4
      then length (nth 3 (segments msg) []) < 2
      else length (nth 2 (segments msg) []) < 2
  end.

(** The message matches none of the tables. *)
Definition noMatch
  (PROGRAM_ERROR RPC_ERROR SERVER_ERROR OTHER_ERROR
     : list (jsstring * jsstring))
  (toLowerCase : jsstring -> jsstring) (msg : jsstring) : Prop :=
  (forall e, In e PROGRAM_ERROR -> hexSuffix toLowerCase msg e = false) /\
  startsWith msg (lit "failed to send") = false /\
  (forall e, In e RPC_ERROR -> includes msg (fst e) = false) /\
  (forall e, In e SERVER_ERROR -> msg <> fst e) /\
  (forall e, In e OTHER_ERROR -> msg <> fst e).

(** The text built for a hex program error. *)
Definition hexText (ixIndex reason : jsstring) : jsstring :=
  LF ++ bold (lit "Instruction index:") ++ lit " " ++ ixIndex ++
  LF ++ bold (lit "Reason:") ++ lit " " ++ reason.

(** The instruction index read from the third segment: its last code unit
    if [isInt] takes it, and [0] otherwise. *)
Definition ixIndexOf (isInt : jsval -> bool) (p2 : jsstring) : jsstring :=
  let ixIndex := charAt p2 (Z.of_nat (length p2) - 1) in
  toStr (if isInt ixIndex then ixIndex else JString (lit "0")).

(** A simulation failure as the RPC client words it, with the code [a]. *)
Definition hexMessage : jsstring :=
  lit "failed to send transaction: Transaction simulation failed:" ++
  lit " Error processing Instruction 2: custom program error: 0xa".

End ConvertErrorMessageSpec.

Module EditStderrSpec.

Import PgTerminal.

(** Whether [s] is empty or ends in a line feed: what follows it starts a
    line. *)
Definition atLineStart (s : jsstring) : Prop :=
  s = [] \/ exists s', s = s' ++ LF.

(** A build log with the banner and a warning. *)
Definition buildLog : jsstring :=
  lit "   " ++ COMPILING ++ lit "warning: unused variable" ++ LF.

(** A text in which the banner follows [Finished ] and precedes
    [release], and which also has the banner as a line of its own. *)
Definition splitMarker : jsstring :=
  lit "Finished " ++ COMPILING ++ lit "release in 2s" ++ LF ++ COMPILING.

End EditStderrSpec.

Module PgTermSpec.

(** The texts handed to [pgTty.print], with their [sync] argument, in
    order. *)
Definition printed (this : PgTerm) : list (jsstring * option bool) :=
  flat_map (fun op => match op with
                      | OpPrint text sync => [(text, sync)]
                      | _ => []
                      end)
           (display (pgTty this)).

(** [o] is [s] with every occurrence of two line feeds, taken from the left
    and without overlap, replaced by line feed, space, line feed. *)
Inductive Respaced : jsstring -> jsstring -> Prop :=
| Respaced_nil : Respaced [] []
| Respaced_pair s o :
    Respaced s o ->
    Respaced (LF ++ LF ++ s) (LF ++ lit " " ++ LF ++ o)
| Respaced_other c s o :
    startsWith (c :: s) (LF ++ LF) = false ->
    Respaced s o ->
    Respaced (c :: s) (c :: o).

(** An open terminal with [sol] typed, the cursor after [so], and two
    lines in the history. *)
Definition sampleTerm (st : ShellState) : PgTerm :=
  {| isOpen := true;
     pgTty := {| _input := lit "sol"; _cursor := 2; _termSize := (80, 24)%N;
                 display := [] |};
     pgShell := {| state := st;
                   history := [lit "build"; lit "solana balance"];
                   submitted := [] |} |}.

End PgTermSpec.

(* ================================================================= *)
(** ** Notions used in the further properties *)

(** The last code unit of a segment as a template literal shows it:
    [undefined] when the segment is empty. *)
Definition ixText (p : jsstring) : jsstring :=
  match rev p with
  | c :: _ => [c]
  | [] => lit "undefined"
  end.

(** Two simulation failures as the RPC client words them. *)
Definition failedWithIndex : jsstring :=
  lit "failed to send transaction: Transaction simulation failed:" ++
  lit " Error processing Instruction 0: invalid account data".

Definition failedWithoutIndex : jsstring :=
  lit "failed to send transaction: Transaction simulation failed:" ++
  lit " blockhash not found".

(** Ten chunks of two config lines each. *)
Definition sampleChunks : list (ProcessDeploy.Chunk jsstring) :=
  map (fun k => {| ProcessDeploy.items := [lit "name"; lit "uri"];
                   ProcessDeploy.indices := [2 * k; 2 * k + 1] |})
      (seq 0 10).

(** Two chunks, the first of them without items. *)
Definition emptyFirstChunks : list (ProcessDeploy.Chunk jsstring) :=
  [{| ProcessDeploy.items := []; ProcessDeploy.indices := [] |};
   {| ProcessDeploy.items := [lit "name"; lit "uri"];
      ProcessDeploy.indices := [0; 1] |}].

(** A cache of two assets, the second without its link, and the
    collection. *)
Definition sampleItem (name link : jsstring) : ProcessDeploy.CacheItem :=
  {| ProcessDeploy.name := JString name;
     ProcessDeploy.metadata_link := JString link;
     ProcessDeploy.onChain := false |}.

Definition sampleItems : list (jsstring * ProcessDeploy.CacheItem) :=
  [(lit "0", sampleItem (lit "Asset #0") (lit "https://arweave.net/0"));
   (lit "1", sampleItem (lit "Asset #1") []);
   (lit "-1", sampleItem (lit "Collection") (lit "https://arweave.net/c"))].

(** A check of names that refuses those longer than 32 code units. *)
Definition sampleCheckName (name : jsstring) : option jsstring :=
  if 32 <? length name then Some (lit "Name too long") else None.


(** The statements of [editStderr] after the first two, one by one: the
    removal of the rustc trailer, of the Compiling banner, and the rewriting
    of the [Finished release] line. *)
Definition stripTrailer (stderr : jsstring) : jsstring :=
  let startIndex := indexOf stderr (lit "For more") 0 in
  if (startIndex =? -1)%Z then stderr
  else
    let endIndex := indexOf stderr LF startIndex in
    substring stderr 0 startIndex ++ substringFrom stderr (endIndex + 1).

Definition stripCompiling (stderr : jsstring) : jsstring :=
  replace stderr PgTerminal.COMPILING [].

Definition bannerFinished (stderr : jsstring) : jsstring :=
  let startIndex := indexOf stderr (lit "Finished release") 0 in
  if (startIndex =? -1)%Z then stderr
  else
    let whiteSpaceStartIndex := (startIndex - 7)%Z in
    substring stderr 0 whiteSpaceStartIndex ++
    replaceAll (substring stderr whiteSpaceStartIndex startIndex)
               (lit " ") [] ++
    PgTerminal.success (lit "Build successful. ") ++
    lit "Completed" ++
    replace (substringFrom stderr (indexOf stderr (lit " in") startIndex))
            LF (lit "." ++ LF).


(* ================================================================= *)
(** ** Facts about the string operations *)

Lemma streq_true_iff (a b : jsstring) : streq a b = true <-> a = b.
Proof.
  unfold streq. destruct (jsstring_eq_dec a b); split; congruence.
Qed.

Lemma streq_false_iff (a b : jsstring) : streq a b = false <-> a <> b.
Proof.
  unfold streq. destruct (jsstring_eq_dec a b); split; congruence.
Qed.

Lemma split_head (sep : char) (s : jsstring) :
  exists rest,
    split sep s = tokenUntil (fun c => N.eqb c sep) s :: rest.
Proof.
  induction s as [|c t [rest IH]]; simpl.
  - now exists [].
  - destruct (N.eqb c sep).
    + now exists (split sep t).
    + rewrite IH. now exists rest.
Qed.

Lemma at_split_0 (sep : char) (s : jsstring) :
  at_ (split sep s) 0 = JString (tokenUntil (fun c => N.eqb c sep) s).
Proof.
  destruct (split_head sep s) as [rest ->]. reflexivity.
Qed.

Lemma split_no_sep (sep : char) (s : jsstring) :
  ~ In sep s -> split sep s = [s].
Proof.
  induction s as [|c s IH]; intros H; simpl; [reflexivity|].
  destruct (N.eqb c sep) eqn:E.
  - apply N.eqb_eq in E. exfalso. apply H. now left.
  - rewrite IH; [reflexivity|]. intros Hin. apply H. now right.
Qed.

Lemma startsWith_app (p b : jsstring) : startsWith (p ++ b) p = true.
Proof.
  induction p as [|d p IH]; simpl; [reflexivity|].
  now rewrite N.eqb_refl.
Qed.

Lemma startsWith_true_inv (s p : jsstring) :
  startsWith s p = true -> exists b, s = p ++ b.
Proof.
  revert s. induction p as [|d p IH]; intros s H.
  - now exists s.
  - destruct s as [|c s]; simpl in H; [discriminate|].
    apply andb_true_iff in H as [Hc Hs]. apply N.eqb_eq in Hc. subst d.
    destruct (IH s Hs) as [b ->]. now exists b.
Qed.

Lemma search_unfold (s p : jsstring) (k : nat) :
  search s p k =
  if startsWith s p then Some k
  else match s with
       | [] => None
       | _ :: t => search t p (S k)
       end.
Proof. destruct s; reflexivity. Qed.

Lemma search_app (a p b : jsstring) (k : nat) :
  exists j, search (a ++ p ++ b) p k = Some j.
Proof.
  revert k. induction a as [|c a IH]; intros k.
  - rewrite search_unfold. simpl. rewrite startsWith_app. now exists k.
  - rewrite search_unfold.
    destruct (startsWith ((c :: a) ++ p ++ b) p); [now exists k|].
    simpl. apply IH.
Qed.

(** A text includes each of its parts. *)
Lemma includes_intro (s a p b : jsstring) :
  s = a ++ p ++ b -> includes s p = true.
Proof.
  intros ->. unfold includes.
  now destruct (search_app a p b 0) as [j ->].
Qed.

Lemma search_found (s p : jsstring) (k j : nat) :
  search s p k = Some j -> exists a b, s = a ++ p ++ b.
Proof.
  revert k. induction s as [|c s IH]; intros k; simpl;
    destruct (startsWith _ p) eqn:E; try discriminate.
  - intros _. apply startsWith_true_inv in E as [b ->]. now exists [], b.
  - intros _. apply startsWith_true_inv in E as [b ->]. now exists [], b.
  - intros H. destruct (IH _ H) as (a & b & ->). now exists (c :: a), b.
Qed.

(** What a text includes is one of its parts. *)
Lemma includes_inv (s p : jsstring) :
  includes s p = true -> exists a b, s = a ++ p ++ b.
Proof.
  unfold includes. destruct (search s p 0) as [j|] eqn:E; [|discriminate].
  intros _. exact (search_found s p 0 j E).
Qed.

Lemma search_none_shift (s p : jsstring) (k k' : nat) :
  search s p k = None -> search s p k' = None.
Proof.
  revert k k'. induction s as [|c s IH]; intros k k'; simpl;
    destruct (startsWith _ p); try discriminate; try reflexivity.
  apply IH.
Qed.

Lemma includes_false_search (s p : jsstring) :
  includes s p = false -> search s p 0 = None.
Proof.
  unfold includes. now destruct (search s p 0).
Qed.

Lemma indexOf_0 (s p : jsstring) :
  indexOf s p 0 = match search s p 0 with
                  | Some k => Z.of_nat k
                  | None => (-1)%Z
                  end.
Proof. reflexivity. Qed.

Lemma indexOf_absent (s p : jsstring) :
  includes s p = false -> indexOf s p 0 = (-1)%Z.
Proof.
  intros H. rewrite indexOf_0. now rewrite (includes_false_search s p H).
Qed.

Lemma replaceAllFrom_absent (p r s : jsstring) :
  search s p 0 = None -> replaceAllFrom p r s 0 = s.
Proof.
  induction s as [|c s IH]; [reflexivity|].
  rewrite search_unfold. simpl.
  destruct (startsWith (c :: s) p); [discriminate|].
  intros H. f_equal. apply IH. exact (search_none_shift s p 1 0 H).
Qed.

(** Replacing all occurrences of a text that does not occur changes
    nothing. *)
Lemma replaceAll_absent (s p r : jsstring) :
  includes s p = false -> replaceAll s p r = s.
Proof.
  intros H. destruct p as [|d p].
  - unfold includes in H. rewrite search_unfold in H. discriminate H.
  - apply replaceAllFrom_absent. now apply includes_false_search.
Qed.

(** Replacing the first occurrence by nothing, when it lies after [pre]. *)
Lemma replace_first (pre p post : jsstring) :
  indexOf (pre ++ p ++ post) p 0 = Z.of_nat (length pre) ->
  replace (pre ++ p ++ post) p [] = pre ++ post.
Proof.
  rewrite indexOf_0. unfold replace.
  destruct (search (pre ++ p ++ post) p 0) as [k|]; [|lia].
  intros H. apply Nat2Z.inj in H. subst k. simpl.
  rewrite firstn_app, firstn_all, Nat.sub_diag, firstn_O, app_nil_r.
  rewrite skipn_app, skipn_all2 by lia. simpl.
  replace (length pre + length p - length pre) with (length p) by lia.
  rewrite skipn_app, skipn_all, Nat.sub_diag. reflexivity.
Qed.

Lemma find_all_false {A} (f : A -> bool) (l : list A) :
  (forall x, In x l -> f x = false) -> find f l = None.
Proof.
  induction l as [|x l IH]; intros H; simpl; [reflexivity|].
  rewrite (H x (or_introl eq_refl)). apply IH.
  intros y Hy. apply H. now right.
Qed.

Lemma find_exists {A} (f : A -> bool) (l : list A) :
  (exists x, In x l /\ f x = true) ->
  exists y, find f l = Some y /\ In y l /\ f y = true.
Proof.
  intros [x [Hx Hf]].
  destruct (find f l) as [y|] eqn:E.
  - exists y. split; [reflexivity|]. now apply find_some in E.
  - pose proof (find_none f l E x Hx) as Hn. congruence.
Qed.

(* ================================================================= *)
(** ** [PgTerminal.parseCommand] *)

Module ParseCommandProofs.

Import PgTerminal ParseCommandSpec.

Lemma valeq_cmdName (line : jsstring) :
  valeq (at_ (split 32%N line) 0) (lit "solana") = true <->
  tokenUntil isSpace line = lit "solana".
Proof.
  rewrite at_split_0. unfold valeq. apply streq_true_iff.
Qed.

Lemma solana_not_builtin (line : jsstring) :
  tokenUntil isSpace line = lit "solana" -> ~ isBuiltin line.
Proof.
  intros H [E | [E | [E | E]]]; rewrite E in H; vm_compute in H;
    discriminate H.
Qed.

(** Each test of the trimmed line against a command taken as a whole is
    settled: either it holds and [tac] closes the goal, or it fails. *)
Ltac builtin_tests cmd tac :=
  repeat match goal with
  | |- context [streq (trim cmd) ?l] =>
      let E := fresh "E" in
      destruct (streq (trim cmd) l) eqn:E;
        [apply streq_true_iff in E; tac|]
  end.

(** The outcome of [parseCommand] on a line of the [solana] branch. *)
Lemma solana_branch_outcome (env : Env) (cmd : jsstring) (wasm : option Wasm) :
  tokenUntil isSpace (trim cmd) = lit "solana" ->
  parseCommand env cmd wasm = (true, solanaEffects env (trim cmd) wasm).
Proof.
  intros H. pose proof (solana_not_builtin _ H) as NB.
  unfold parseCommand, isBuiltin in *.
  builtin_tests cmd ltac:(exfalso; apply NB; tauto).
  apply valeq_cmdName in H. rewrite H.
  unfold solanaEffects, backendLoaded, checkIsPgConnected.
  destruct wasm as [w|];
    [destruct (parseSolana w); [destruct (isPgConnected env)|]|];
    reflexivity.
Qed.

(** The result of [parseCommand] is [true] exactly on a recognised line. *)
Lemma parseCommand_returned (env : Env) (cmd : jsstring) (wasm : option Wasm) :
  returned (parseCommand env cmd wasm) = true <-> recognised cmd.
Proof.
  unfold recognised. split.
  - unfold parseCommand, isBuiltin.
    builtin_tests cmd ltac:(intros _; tauto).
    destruct (valeq _ _) eqn:V.
    + intros _. right. now apply valeq_cmdName.
    + cbn. discriminate.
  - intros [B | S].
    + unfold parseCommand.
      destruct B as [E | [E | [E | E]]]; rewrite E;
        unfold checkIsPgConnected; destruct (isPgConnected env); reflexivity.
    + now rewrite (solana_branch_outcome env cmd wasm S).
Qed.

(** C1, as stated, fails: in [solana<TAB>balance] the first token delimited
    by white space is [solana], yet [parseCommand] answers [false], because
    it cuts the line at spaces only. *)
Lemma parseCommand_tab_not_matched :
  recognisedByWhiteSpace tabLine /\
  returned (parseCommand Sample.connected tabLine (Some Sample.solanaCli))
  = false.
Proof.
  split.
  - right. reflexivity.
  - reflexivity.
Qed.

(** C1, amended: [parseCommand] returns [true] if and only if the trimmed
    line is exactly [help], [build], [connect] or [deploy], or what
    precedes its first space character (U+0020) is exactly [solana]; in
    particular [solana-keygen balance] is not matched. *)
Theorem parseCommand_matched_iff :
  (forall env cmd wasm,
      returned (parseCommand env cmd wasm) = true <-> recognised cmd) /\
  (forall env wasm,
      returned (parseCommand env (lit "solana-keygen balance") wasm) = false).
Proof.
  split.
  - apply parseCommand_returned.
  - intros env wasm. reflexivity.
Qed.

(** C3: on a line that trims to [deploy], [parseCommand] returns [true]
    whatever the wallet answers, and the [deployStart] state event is among
    its effects if and only if [checkIsPgConnected] holds. *)
Theorem parseCommand_deploy (env : Env) (cmd : jsstring) (wasm : option Wasm) :
  trim cmd = lit "deploy" ->
  returned (parseCommand env cmd wasm) = true /\
  (In (Dispatch EVT_NAME_TERMINAL_STATE (DetailAction deployStart))
      (effects (parseCommand env cmd wasm))
   <-> checkIsPgConnected env = true).
Proof.
  intros E. unfold parseCommand. rewrite E.
  unfold checkIsPgConnected. destruct (isPgConnected env); cbn.
  - split; [reflexivity|]. split; [reflexivity|]. intros _. now left.
  - split; [reflexivity|]. split; [intros []|discriminate].
Qed.

Lemma parseCommand_deploy_witness :
  trim (lit "  deploy ") = lit "deploy" /\
  (returned (parseCommand Sample.disconnected (lit "  deploy ") None) = true /\
   (In (Dispatch EVT_NAME_TERMINAL_STATE (DetailAction deployStart))
       (effects (parseCommand Sample.disconnected (lit "  deploy ") None))
    <-> checkIsPgConnected Sample.disconnected = true)).
Proof.
  split; [reflexivity|].
  apply (parseCommand_deploy Sample.disconnected (lit "  deploy ") None).
  reflexivity.
Defined.

(** C4, as stated, fails: with the package loaded and the wallet not
    connected, [solana balance] is matched but the package is not called
    and no timer is armed. *)
Lemma parseCommand_solana_disconnected :
  tokenUntil isWhiteSpace (trim (lit "solana balance")) = lit "solana" /\
  backendLoaded (Some Sample.solanaCli) = true /\
  parseCommand Sample.disconnected (lit "solana balance")
               (Some Sample.solanaCli) = (true, []).
Proof. repeat split. Qed.

(** C4, amended: on a line whose trimmed form has [solana] before its first
    space, [parseCommand] returns [true] and
    - with the package loaded and the wallet connected, calls it with the
      trimmed line, the endpoint, the commitment and the key pair bytes, and
      arms a timer of 1000 ms that enables the terminal;
    - with the package loaded and the wallet not connected, does nothing;
    - with the package not loaded, asks for it to be loaded and does not
      call it. *)
Theorem parseCommand_solana_branch
  (env : Env) (cmd : jsstring) (wasm : option Wasm) :
  tokenUntil isSpace (trim cmd) = lit "solana" ->
  returned (parseCommand env cmd wasm) = true /\
  effects (parseCommand env cmd wasm) =
    if backendLoaded wasm then
      if checkIsPgConnected env then
        [CallParseSolana (trim cmd)
           [ArgString (endpoint env); ArgString (commitment env);
            ArgBytes (keypairBytes env)];
         SetTimeout [Dispatch EVT_NAME_TERMINAL_ENABLE (DetailEnabled true)]
                    1000]
      else []
    else [Dispatch EVT_NAME_LOAD_WASM (DetailPkg SOLANA_CLI)].
Proof.
  intros H. rewrite (solana_branch_outcome env cmd wasm H).
  split; reflexivity.
Qed.

Lemma parseCommand_solana_branch_witness :
  tokenUntil isSpace (trim (lit " solana balance ")) = lit "solana" /\
  (returned (parseCommand Sample.connected (lit " solana balance ")
                          (Some Sample.solanaCli)) = true /\
   effects (parseCommand Sample.connected (lit " solana balance ")
                         (Some Sample.solanaCli)) =
     if backendLoaded (Some Sample.solanaCli) then
       if checkIsPgConnected Sample.connected then
         [CallParseSolana (trim (lit " solana balance "))
            [ArgString (endpoint Sample.connected);
             ArgString (commitment Sample.connected);
             ArgBytes (keypairBytes Sample.connected)];
          SetTimeout [Dispatch EVT_NAME_TERMINAL_ENABLE (DetailEnabled true)]
                     1000]
       else []
     else [Dispatch EVT_NAME_LOAD_WASM (DetailPkg SOLANA_CLI)]).
Proof.
  split; [reflexivity|].
  apply (parseCommand_solana_branch Sample.connected
           (lit " solana balance ") (Some Sample.solanaCli)).
  reflexivity.
Defined.

End ParseCommandProofs.

(* ================================================================= *)
(** ** [PgTerminal.convertErrorMessage] *)

Module ConvertErrorMessageProofs.

Import PgTerminal ConvertErrorMessageSpec.

Lemma charAt_1 (p : jsstring) :
  match charAt p 1 with
  | JString _ => 2 <= length p
  | JUndefined => length p < 2
  end.
Proof.
  unfold charAt. change (Z.to_nat 1) with 1.
  destruct p as [|a [|b p]]; cbn; lia.
Qed.

Lemma at_nth (parts : list jsstring) (i : nat) :
  match at_ parts i with
  | JString p => i < length parts /\ nth i parts [] = p
  | JUndefined => length parts <= i /\ nth i parts [] = []
  end.
Proof.
  unfold at_. destruct (nth_error parts i) eqn:E.
  - split.
    + apply nth_error_Some. congruence.
    + now apply nth_error_nth.
  - apply nth_error_None in E. split; [assumption|].
    now apply nth_overflow.
Qed.

Lemma hexText_includes (ixIndex reason : jsstring) :
  includes (hexText ixIndex reason) (lit "Instruction index:") = true /\
  includes (hexText ixIndex reason) reason = true.
Proof.
  split.
  - apply includes_intro with
      (a := LF ++ ESC ++ lit "[1m")
      (b := ESC ++ lit "[0m" ++ lit " " ++ ixIndex ++
            LF ++ bold (lit "Reason:") ++ lit " " ++ reason).
    unfold hexText, bold. now rewrite <- !app_assoc.
  - apply includes_intro with
      (a := LF ++ bold (lit "Instruction index:") ++ lit " " ++ ixIndex ++
            LF ++ bold (lit "Reason:") ++ lit " ")
      (b := []).
    unfold hexText. now rewrite app_nil_r, <- !app_assoc.
Qed.

Section Tables.

Variables PROGRAM_ERROR RPC_ERROR SERVER_ERROR OTHER_ERROR
  : list (jsstring * jsstring).
Variable isInt : jsval -> bool.
Variables toLowerCase toUpperCase : jsstring -> jsstring.

Local Notation "'convert'" :=
  (convertErrorMessage PROGRAM_ERROR RPC_ERROR SERVER_ERROR OTHER_ERROR
     isInt toLowerCase toUpperCase) (at level 0).

(** [convertErrorMessage] throws exactly on the inputs of [readsMissing]. *)
Lemma convert_throws_iff (msg : jsstring) :
  convert msg = Throw TypeError <->
  readsMissing PROGRAM_ERROR toLowerCase msg.
Proof.
  unfold convertErrorMessage, readsMissing, hexSuffix, segments.
  destruct (find _ PROGRAM_ERROR) as [[code reason]|].
  - pose proof (at_nth (split 58%N msg) 2) as P.
    destruct (at_ (split 58%N msg) 2); simpl.
    + split; [intros _; lia|reflexivity].
    + split; [discriminate|lia].
  - destruct (startsWith msg (lit "failed to send")).
    + destruct (length (split 58%N msg) =? 4) eqn:L.
      * apply Nat.eqb_eq in L.
        pose proof (at_nth (split 58%N msg) 2) as P2.
        pose proof (at_nth (split 58%N msg) 3) as P3.
        destruct (at_ (split 58%N msg) 2) as [|p2]; [lia|]. simpl.
        destruct (at_ (split 58%N msg) 3) as [|p3]; [lia|]. simpl.
        destruct P3 as [_ ->].
        pose proof (charAt_1 p3) as C.
        destruct (charAt p3 1); simpl.
        -- split; [intros _; now split|reflexivity].
        -- split; [discriminate|lia].
      * pose proof (at_nth (split 58%N msg) 2) as P2.
        destruct (at_ (split 58%N msg) 2) as [|p2]; simpl.
        -- destruct P2 as [_ ->]. simpl.
           split; [intros _; split; [reflexivity|lia]|reflexivity].
        -- destruct P2 as [_ ->].
           pose proof (charAt_1 p2) as C.
           destruct (charAt p2 1); simpl.
           ++ split; [intros _; now split|reflexivity].
           ++ split; [discriminate|lia].
    + split; [|intros [H _]; discriminate H].
      destruct (find _ RPC_ERROR) as [[? ?]|]; [discriminate|].
      destruct (find _ SERVER_ERROR) as [[? ?]|]; [discriminate|].
      destruct (find _ OTHER_ERROR) as [[? ?]|]; discriminate.
Qed.

(** A message that matches no table comes back as it is. *)
Lemma convert_noMatch (msg : jsstring) :
  noMatch PROGRAM_ERROR RPC_ERROR SERVER_ERROR OTHER_ERROR toLowerCase msg ->
  convert msg = Ok msg.
Proof.
  intros (HP & HF & HR & HS & HO).
  unfold convertErrorMessage.
  rewrite (find_all_false
             (fun e => endsWith msg (lit "0x" ++ toLowerCase (fst e))) _ HP).
  rewrite HF.
  rewrite (find_all_false (fun e => includes msg (fst e)) _ HR).
  rewrite (find_all_false (fun e => streq msg (fst e)) SERVER_ERROR).
  2:{ intros e He. apply streq_false_iff. now apply HS. }
  rewrite (find_all_false (fun e => streq msg (fst e)) OTHER_ERROR).
  2:{ intros e He. apply streq_false_iff. now apply HO. }
  reflexivity.
Qed.

(** A message that is nothing but the hex suffix of a code of the table
    has one segment, whatever the table: the call throws. *)
Lemma bare_hex_suffix_throws (code reason : jsstring) :
  In (code, reason) PROGRAM_ERROR ->
  ~ In 58%N (toLowerCase code) ->
  convert (lit "0x" ++ toLowerCase code) = Throw TypeError.
Proof.
  intros Hin Hcolon. apply convert_throws_iff. unfold readsMissing.
  destruct (find_exists
              (hexSuffix toLowerCase (lit "0x" ++ toLowerCase code))
              PROGRAM_ERROR) as [e [-> _]].
  - exists (code, reason). split; [exact Hin|].
    unfold hexSuffix, endsWith. simpl fst.
    rewrite <- (app_nil_r (rev (lit "0x" ++ toLowerCase code))) at 1.
    apply startsWith_app.
  - unfold segments. rewrite split_no_sep; [simpl; lia|].
    intros [H | [H | H]]; [discriminate H|discriminate H|now apply Hcolon].
Qed.

(** Off those inputs a string is returned. *)
Lemma convert_returns_elsewhere (msg : jsstring) :
  ~ readsMissing PROGRAM_ERROR toLowerCase msg ->
  exists s, convert msg = Ok s.
Proof.
  intros NM. destruct (convert msg) as [s|[]] eqn:E.
  - now exists s.
  - exfalso. apply NM. now apply convert_throws_iff.
Qed.

(** A message without the letter [x] ends in no hex suffix, whatever the
    table holds. *)
Lemma no_hex_suffix_without_x (msg : jsstring) :
  ~ In 120%N msg ->
  find (fun e => endsWith msg (lit "0x" ++ toLowerCase (fst e)))
       PROGRAM_ERROR = None.
Proof.
  intros Hx. apply find_all_false. intros e _. unfold endsWith.
  destruct (startsWith _ _) eqn:E; [exfalso|reflexivity].
  apply startsWith_true_inv in E as [b Hb].
  apply Hx. apply (proj2 (in_rev msg 120%N)). rewrite Hb, rev_app_distr.
  apply in_or_app. left. apply in_or_app. right. now left.
Qed.

(** C2: the claim does not hold of the code.  The message
    [failed to send transaction: Node is behind by 150 slots] starts with
    [failed to send] and has two colon-delimited segments;
    [convertErrorMessage] takes the path without instruction index, reads
    the second code unit of a third segment that is not there, and throws
    a [TypeError], whatever the tables hold, where the claim has a string
    returned. *)
Theorem convertErrorMessage_node_behind_throws :
  length (segments
            (lit "failed to send transaction: Node is behind by 150 slots"))
  = 2 /\
  convert (lit "failed to send transaction: Node is behind by 150 slots")
  = Throw TypeError.
Proof.
  split; [reflexivity|].
  unfold convertErrorMessage.
  rewrite no_hex_suffix_without_x; [reflexivity|].
  vm_compute. intros H.
  repeat (destruct H as [H|H]; [discriminate H|]). exact H.
Qed.

(** C5: the claim does not hold of the code.  The message
    [custom program error: 0x1] has two colon-delimited segments; with a
    table that knows a code whose hex suffix ends it,
    [convertErrorMessage] reads the length of a third segment that is not
    there and throws a [TypeError], before it gets to the test of [isInt]
    and to the index [0] it falls back to, where the claim has the text
    with [Instruction index:] and the reason returned. *)
Theorem convertErrorMessage_short_hex_throws :
  (exists e, In e PROGRAM_ERROR /\
             hexSuffix toLowerCase (lit "custom program error: 0x1") e
             = true) ->
  length (segments (lit "custom program error: 0x1")) = 2 /\
  convert (lit "custom program error: 0x1") = Throw TypeError.
Proof.
  intros Hex. split; [reflexivity|].
  apply convert_throws_iff. unfold readsMissing.
  destruct (find_exists _ _ Hex) as [e [-> _]].
  vm_compute. lia.
Qed.

(** X26: For a message that ends in a known hex suffix and has at
    least three colon-delimited segments, [convertErrorMessage] returns the
    text made of [Instruction index:], the index, [Reason:] and the text the
    table lists for the first code whose suffix matches; the text contains
    both [Instruction index:] and that reason; the index is the last code
    unit of the third segment when [isInt] takes it and [0] otherwise. *)
Theorem convertErrorMessage_hex (msg p2 : jsstring) :
  (exists e, In e PROGRAM_ERROR /\ hexSuffix toLowerCase msg e = true) ->
  nth_error (segments msg) 2 = Some p2 ->
  exists code reason,
    find (hexSuffix toLowerCase msg) PROGRAM_ERROR = Some (code, reason) /\
    In (code, reason) PROGRAM_ERROR /\
    hexSuffix toLowerCase msg (code, reason) = true /\
    convert msg = Ok (hexText (ixIndexOf isInt p2) reason) /\
    includes (hexText (ixIndexOf isInt p2) reason)
             (lit "Instruction index:") = true /\
    includes (hexText (ixIndexOf isInt p2) reason) reason = true /\
    (isInt (charAt p2 (Z.of_nat (length p2) - 1)) = false ->
     ixIndexOf isInt p2 = lit "0").
Proof.
  intros Hex Hseg.
  destruct (find_exists (hexSuffix toLowerCase msg) PROGRAM_ERROR Hex)
    as [[code reason] (Hfind & Hin & Hsuf)].
  exists code, reason.
  split; [exact Hfind|]. split; [exact Hin|]. split; [exact Hsuf|].
  split; [|split; [apply hexText_includes|split; [apply hexText_includes|]]].
  - unfold convertErrorMessage.
    change (fun e : jsstring * jsstring =>
              endsWith msg (lit "0x" ++ toLowerCase (fst e)))
      with (hexSuffix toLowerCase msg).
    rewrite Hfind. unfold at_.
    unfold segments in Hseg. rewrite Hseg. reflexivity.
  - intros H. unfold ixIndexOf. now rewrite H.
Qed.

(** C6: a message that ends in no known hex suffix, does not start with
    [failed to send], contains no key of the RPC table and is no key of the
    server and other tables is returned unchanged. *)
Theorem convertErrorMessage_unmatched (msg : jsstring) :
  (forall e, In e PROGRAM_ERROR ->
             endsWith msg (lit "0x" ++ toLowerCase (fst e)) = false) ->
  startsWith msg (lit "failed to send") = false ->
  (forall e, In e RPC_ERROR -> includes msg (fst e) = false) ->
  (forall e, In e SERVER_ERROR -> msg <> fst e) ->
  (forall e, In e OTHER_ERROR -> msg <> fst e) ->
  convert msg = Ok msg.
Proof.
  intros HP HF HR HS HO. apply convert_noMatch.
  unfold noMatch, hexSuffix. auto.
Qed.

End Tables.

Lemma convertErrorMessage_short_hex_throws_witness :
  (exists e, In e Sample.PROGRAM_ERROR /\
             hexSuffix Sample.toLowerCase (lit "custom program error: 0x1") e
             = true) /\
  Sample.convert (lit "custom program error: 0x1") = Throw TypeError.
Proof.
  assert (exists e, In e Sample.PROGRAM_ERROR /\
            hexSuffix Sample.toLowerCase (lit "custom program error: 0x1") e
            = true) as Hex.
  { exists (lit "1", lit "Insufficient funds").
    split; [now left|reflexivity]. }
  split; [exact Hex|].
  apply (convertErrorMessage_short_hex_throws Sample.PROGRAM_ERROR
           Sample.RPC_ERROR Sample.SERVER_ERROR Sample.OTHER_ERROR
           Sample.isInt Sample.toLowerCase Sample.toUpperCase Hex).
Defined.

Lemma convertErrorMessage_hex_witness :
  (exists e, In e Sample.PROGRAM_ERROR /\
             hexSuffix Sample.toLowerCase hexMessage e = true) /\
  nth_error (segments hexMessage) 2
  = Some (lit " Error processing Instruction 2") /\
  Sample.convert hexMessage
  = Ok (hexText (lit "2") (lit "Invalid instruction data")).
Proof.
  assert (exists e, In e Sample.PROGRAM_ERROR /\
                    hexSuffix Sample.toLowerCase hexMessage e = true) as Hex.
  { exists (lit "A", lit "Invalid instruction data").
    split; [right; now left|reflexivity]. }
  split; [exact Hex|]. split; [reflexivity|].
  destruct (convertErrorMessage_hex Sample.PROGRAM_ERROR Sample.RPC_ERROR
              Sample.SERVER_ERROR Sample.OTHER_ERROR Sample.isInt
              Sample.toLowerCase Sample.toUpperCase hexMessage
              (lit " Error processing Instruction 2") Hex eq_refl)
    as (code & reason & Hfind & _ & _ & Hconv & _).
  vm_compute in Hfind. injection Hfind as <- <-.
  exact Hconv.
Defined.

Lemma convertErrorMessage_unmatched_witness :
  Sample.convert (lit "Blockhash not found")
  = Ok (lit "Blockhash not found").
Proof.
  apply (convertErrorMessage_unmatched Sample.PROGRAM_ERROR Sample.RPC_ERROR
           Sample.SERVER_ERROR Sample.OTHER_ERROR Sample.isInt
           Sample.toLowerCase Sample.toUpperCase).
  - intros e [<- | [<- | []]]; reflexivity.
  - reflexivity.
  - intros e [<- | []]; reflexivity.
  - intros e [<- | []]; discriminate.
  - intros e [<- | []]; discriminate.
Defined.

End ConvertErrorMessageProofs.

(* ================================================================= *)
(** ** [PgTerminal.editStderr] *)

Module EditStderrProofs.

Import PgTerminal EditStderrSpec.

Lemma removeFullPathFrom_absent (s : jsstring) :
  testFullPath s = false -> removeFullPathFrom s 0 = s.
Proof.
  induction s as [|c s IH]; [reflexivity|].
  change (testFullPath (c :: s))
    with (match matchFullPath (c :: s) with
          | Some _ => true
          | None => testFullPath s
          end).
  change (removeFullPathFrom (c :: s) 0)
    with (match matchFullPath (c :: s) with
          | Some n => removeFullPathFrom s (n - 1)
          | None => c :: removeFullPathFrom s 0
          end).
  destruct (matchFullPath (c :: s)); [discriminate|].
  intros H. now rewrite IH.
Qed.

(** [editStderr] on a text with no path, no uuid and no rustc trailer: the
    first Compiling banner goes, and nothing else changes as long as what
    is left has no [Finished release]. *)
Lemma editStderr_compiling (uuid pre post : jsstring) :
  indexOf (pre ++ COMPILING ++ post) COMPILING 0 = Z.of_nat (length pre) ->
  testFullPath (pre ++ COMPILING ++ post) = false ->
  includes (pre ++ COMPILING ++ post) uuid = false ->
  includes (pre ++ COMPILING ++ post) (lit "For more") = false ->
  includes (pre ++ post) (lit "Finished release") = false ->
  editStderr (pre ++ COMPILING ++ post) uuid = pre ++ post.
Proof.
  intros Hfirst Hpath Huuid Hmore Hfin.
  unfold editStderr.
  rewrite (removeFullPathFrom_absent _ Hpath).
  rewrite (replaceAll_absent _ _ [] Huuid).
  rewrite (indexOf_absent _ _ Hmore).
  change ((-1 =? -1)%Z) with true. cbv iota.
  rewrite (replace_first _ _ _ Hfirst).
  rewrite (indexOf_absent _ _ Hfin).
  reflexivity.
Qed.

(** The marker has no line feed in it. *)
Lemma marker_one_line (l r : jsstring) :
  lit "Finished release" <> l ++ LF ++ r.
Proof.
  intros H.
  assert (In 10%N (lit "Finished release")) as Hin.
  { rewrite H. apply in_or_app. right. now left. }
  vm_compute in Hin.
  repeat (destruct Hin as [Hin|Hin]; [discriminate Hin|]). exact Hin.
Qed.

(** Taking out a banner that starts a line cannot bring the two halves of
    a marker together. *)
Lemma no_marker_after_removal (pre post : jsstring) :
  atLineStart pre ->
  includes (pre ++ COMPILING ++ post) (lit "Finished release") = false ->
  includes (pre ++ post) (lit "Finished release") = false.
Proof.
  intros Hline Hno.
  destruct (includes (pre ++ post) (lit "Finished release")) eqn:E;
    [exfalso|reflexivity].
  apply includes_inv in E as (a & b & Hab).
  apply app_eq_app in Hab as [l [[Hpre Hrest] | [Ha Hpost]]].
  - symmetry in Hrest.
    apply app_eq_app in Hrest as [l' [[Hl Hb] | [Hfr Hpost]]].
    + (* the marker lies in [pre] *)
      subst l.
      rewrite (includes_intro (pre ++ COMPILING ++ post) (a)
                 (lit "Finished release") (l' ++ COMPILING ++ post)) in Hno;
        [discriminate|].
      rewrite Hpre. now rewrite <- !app_assoc.
    + destruct l as [|x l].
      * (* the marker lies in [post] *)
        simpl in Hfr. subst l'.
        rewrite (includes_intro (pre ++ COMPILING ++ post) (pre ++ COMPILING)
                 (lit "Finished release") (b)) in Hno;
          [discriminate|].
        rewrite Hpost. now rewrite <- !app_assoc.
      * (* the marker straddles the place of the banner *)
        destruct Hline as [-> | [s' Hs']].
        { destruct a; discriminate Hpre. }
        destruct (exists_last (l := x :: l)) as [l0 [y Hl0]];
          [discriminate|].
        rewrite Hl0 in Hpre, Hfr.
        rewrite Hs', app_assoc in Hpre.
        apply app_inj_tail in Hpre as [_ Hy]. subst y.
        apply (marker_one_line l0 l'). rewrite Hfr.
        now rewrite <- app_assoc.
  - (* the marker lies in [post] *)
    rewrite (includes_intro (pre ++ COMPILING ++ post) (pre ++ COMPILING ++ l)
                 (lit "Finished release") (b)) in Hno;
      [discriminate|].
    rewrite Hpost. now rewrite <- !app_assoc.
Qed.

(** When the first banner is a line of its own and the input has no
    [Finished release], only that line goes. *)
Lemma editStderr_compiling_line (uuid pre post : jsstring) :
  atLineStart pre ->
  indexOf (pre ++ COMPILING ++ post) COMPILING 0 = Z.of_nat (length pre) ->
  testFullPath (pre ++ COMPILING ++ post) = false ->
  includes (pre ++ COMPILING ++ post) uuid = false ->
  includes (pre ++ COMPILING ++ post) (lit "For more") = false ->
  includes (pre ++ COMPILING ++ post) (lit "Finished release") = false ->
  editStderr (pre ++ COMPILING ++ post) uuid = pre ++ post.
Proof.
  intros Hline Hfirst Hpath Huuid Hmore Hfin.
  apply editStderr_compiling; try assumption.
  now apply no_marker_after_removal.
Qed.

(** C8, amended: for an input whose first [Compiling solpg v0.1.0] line
    stands between [pre] and [post], with no home-directory path fragment,
    no occurrence of the uuid and no [For more], and such that what is left
    without that line holds no [Finished release], [editStderr] returns
    the input without that line and with everything else unchanged. *)
Theorem editStderr_removes_compiling (stderr uuid pre post : jsstring) :
  stderr = pre ++ COMPILING ++ post ->
  indexOf stderr COMPILING 0 = Z.of_nat (length pre) ->
  testFullPath stderr = false ->
  includes stderr uuid = false ->
  includes stderr (lit "For more") = false ->
  includes (pre ++ post) (lit "Finished release") = false ->
  editStderr stderr uuid = pre ++ post.
Proof.
  intros ->. apply editStderr_compiling.
Qed.

Lemma editStderr_removes_compiling_witness :
  editStderr buildLog (lit "0a1b2c")
  = lit "   " ++ lit "warning: unused variable" ++ LF.
Proof.
  apply (editStderr_removes_compiling buildLog (lit "0a1b2c") (lit "   ")
           (lit "warning: unused variable" ++ LF)); reflexivity.
Defined.

(** C8, as stated, fails: [splitMarker] contains the Compiling line and has
    no path fragment, no uuid, no [For more] and no [Finished release]; once
    the first banner is gone the marker is there, and the result is the
    success banner, not the input less one Compiling line. *)
Lemma editStderr_marker_after_removal :
  includes splitMarker COMPILING = true /\
  testFullPath splitMarker = false /\
  includes splitMarker (lit "0a1b2c") = false /\
  includes splitMarker (lit "For more") = false /\
  includes splitMarker (lit "Finished release") = false /\
  editStderr splitMarker (lit "0a1b2c")
  = success (lit "Build successful. ") ++ lit "Completed in 2s." ++ LF ++
    COMPILING /\
  (forall pre post,
      splitMarker = pre ++ COMPILING ++ post ->
      editStderr splitMarker (lit "0a1b2c") <> pre ++ post).
Proof.
  repeat (split; [reflexivity|]).
  intros pre post E H.
  apply (f_equal (@length char)) in E, H.
  rewrite !length_app in E. rewrite length_app in H.
  change (length splitMarker) with 69 in E.
  change (length COMPILING) with 23 in E.
  assert (length (editStderr splitMarker (lit "0a1b2c")) = 69) as L
    by reflexivity.
  lia.
Qed.

End EditStderrProofs.

(* ================================================================= *)
(** ** [PgTerm] *)

Module PgTermProofs.

Import PgTerm PgTermSpec.

Lemma respace_pair (s : jsstring) :
  respace (LF ++ LF ++ s) = LF ++ lit " " ++ LF ++ respace s.
Proof. reflexivity. Qed.

Lemma respace_other (c : char) (s : jsstring) :
  startsWith (c :: s) (LF ++ LF) = false ->
  respace (c :: s) = c :: respace s.
Proof.
  intros H. unfold respace.
  change (replaceAll (c :: s) (LF ++ LF) (LF ++ lit " " ++ LF))
    with (if startsWith (c :: s) (LF ++ LF)
          then (LF ++ lit " " ++ LF) ++
               replaceAllFrom (LF ++ LF) (LF ++ lit " " ++ LF) s 1
          else c :: replaceAllFrom (LF ++ LF) (LF ++ lit " " ++ LF) s 0).
  now rewrite H.
Qed.

Lemma respace_Respaced_aux (s : jsstring) :
  Respaced s (respace s) /\ forall c, Respaced (c :: s) (respace (c :: s)).
Proof.
  induction s as [|d s [IH1 IH2]].
  - split; [constructor|]. intros c.
    assert (startsWith [c] (LF ++ LF) = false) as E
      by (simpl; apply andb_false_r).
    rewrite (respace_other c [] E). apply Respaced_other; [exact E|].
    constructor.
  - split; [apply IH2|]. intros c.
    destruct (startsWith (c :: d :: s) (LF ++ LF)) eqn:E.
    + simpl in E. rewrite andb_true_r in E.
      apply andb_true_iff in E as [Ec Ed].
      apply N.eqb_eq in Ec, Ed. subst c d.
      change (10%N :: 10%N :: s) with (LF ++ LF ++ s).
      rewrite respace_pair. now apply Respaced_pair.
    + rewrite (respace_other c (d :: s) E).
      apply Respaced_other; [exact E|apply IH2].
Qed.

(** The relation fixes its second term: there is one way to replace. *)
Lemma Respaced_functional (s o o' : jsstring) :
  Respaced s o -> Respaced s o' -> o = o'.
Proof.
  intros H. revert o'.
  induction H as [|s o H IH|c s o Hc H IH]; intros o' H'.
  - now inversion H'.
  - inversion H' as [|s1 o1 H1|c1 s1 o1 Hc1 H1]; subst.
    + f_equal. f_equal. f_equal. now apply IH.
    + discriminate Hc1.
  - inversion H' as [|s1 o1 H1|c1 s1 o1 Hc1 H1]; subst.
    + discriminate Hc.
    + f_equal. now apply IH.
Qed.

Lemma printed_withTty (this : PgTerm) (t : PgTty) (ops : list ttyOp) :
  display t = display (pgTty this) ++ ops ->
  printed (withTty this t) =
  printed this ++ flat_map (fun op => match op with
                                      | OpPrint text sync => [(text, sync)]
                                      | _ => []
                                      end) ops.
Proof.
  intros H. unfold printed. simpl. rewrite H. apply flat_map_app.
Qed.

(** C7: a resize leaves the InputLine as it was, text and cursor offset:
    the rendered input is cleared, the cached size becomes the new one, and
    the same text is rendered again; this in every state of the editor,
    for an InputLine whose cursor lies within its text. *)
Theorem handleTermResize_keeps_input (data : ResizeData) (this : PgTerm) :
  cursorInRange (pgTty this) ->
  _input (pgTty (handleTermResize data this)) = _input (pgTty this) /\
  _cursor (pgTty (handleTermResize data this)) = _cursor (pgTty this) /\
  _termSize (pgTty (handleTermResize data this)) = (cols data, rows data) /\
  display (pgTty (handleTermResize data this)) =
    display (pgTty this) ++
    [OpClearInput;
     OpRenderInput (PgTerminal.PROMPT ++ _input (pgTty this))] /\
  pgShell (handleTermResize data this) = pgShell this /\
  isOpen (handleTermResize data this) = isOpen this.
Proof.
  unfold cursorInRange. intros H.
  unfold handleTermResize. simpl.
  unfold PgTty.getInput. simpl.
  repeat split; try reflexivity.
  - now apply Nat.min_l.
  - now rewrite <- app_assoc.
Qed.

Lemma handleTermResize_keeps_input_witness :
  cursorInRange (pgTty (sampleTerm Prompting)) /\
  _input (pgTty (handleTermResize {| rows := 30; cols := 100 |}
                                  (sampleTerm Prompting))) = lit "sol" /\
  _cursor (pgTty (handleTermResize {| rows := 30; cols := 100 |}
                                   (sampleTerm Prompting))) = 2.
Proof.
  assert (cursorInRange (pgTty (sampleTerm Prompting))) as H
    by (unfold cursorInRange; simpl; lia).
  split; [exact H|].
  destruct (handleTermResize_keeps_input {| rows := 30; cols := 100 |}
              (sampleTerm Prompting) H) as (Hi & Hc & _).
  split; [exact Hi|exact Hc].
Defined.

(** C9: [print] hands to the display nothing but the message rewritten:
    closed, it prints nothing; open and prompting, it prints the rewritten
    message and a line feed; open and not prompting, the rewritten message.
    The rewritten message is the message with every occurrence of two line
    feeds, from the left and without overlap, replaced by line feed, space,
    line feed, and it differs from the message for some messages. *)
Theorem print_respaces :
  (forall message sync this,
      printed (print message sync this) =
      printed this ++
      if isOpen this then
        if PgShell.isPrompting (pgShell this)
        then [(respace message ++ LF, sync)]
        else [(respace message, sync)]
      else []) /\
  (forall message o, Respaced message o <-> o = respace message) /\
  respace (lit "a" ++ LF ++ LF ++ lit "b")
  = lit "a" ++ LF ++ lit " " ++ LF ++ lit "b".
Proof.
  split; [|split].
  - intros message sync this. unfold print.
    destruct (isOpen this); simpl; [|now rewrite app_nil_r].
    destruct (PgShell.isPrompting (pgShell this)).
    + rewrite (printed_withTty this _
                 [OpClearInput; OpPrint (respace message ++ LF) sync;
                  OpRenderInput
                    (PgTerminal.PROMPT ++ _input (pgTty this))]).
      * reflexivity.
      * unfold PgShell.printAndRestartPrompt. simpl.
        now rewrite <- !app_assoc.
    + now rewrite (printed_withTty this _ [OpPrint (respace message) sync]).
  - intros message o. split.
    + intros H. apply (Respaced_functional message); [exact H|].
      apply respace_Respaced_aux.
    + intros ->. apply respace_Respaced_aux.
  - reflexivity.
Qed.

(** C10: [runLastCmd] makes the most recent history entry the InputLine and
    submits it in every state of the editor: the entry is handed to the
    dispatcher and the editor goes to [Dispatching]; [runCommand] leaves
    everything as it is unless the editor is prompting, and then submits
    its line. *)
Theorem runLastCmd_unconditional
  (this : PgTerm) (older : list jsstring) (last line : jsstring) :
  history (pgShell this) = older ++ [last] ->
  (exists after,
      runLastCmd this = Some after /\
      submitted (pgShell after) = submitted (pgShell this) ++ [last] /\
      state (pgShell after) = Dispatching /\
      _input (pgTty after) = []) /\
  (PgShell.isPrompting (pgShell this) = false ->
   runCommand line this = this) /\
  (PgShell.isPrompting (pgShell this) = true ->
   submitted (pgShell (runCommand line this))
   = submitted (pgShell this) ++ [line]).
Proof.
  intros H. split; [|split].
  - unfold runLastCmd, PgShell.getPrevious.
    rewrite H, map_app. simpl. rewrite last_last.
    eexists. split; [reflexivity|]. simpl. repeat split.
  - intros P. unfold runCommand. now rewrite P.
  - intros P. unfold runCommand. now rewrite P.
Qed.

Lemma runLastCmd_unconditional_witness :
  history (pgShell (sampleTerm Idle))
  = [lit "build"] ++ [lit "solana balance"] /\
  (exists after,
      runLastCmd (sampleTerm Idle) = Some after /\
      submitted (pgShell after) = [lit "solana balance"] /\
      state (pgShell after) = Dispatching) /\
  runCommand (lit "help") (sampleTerm Idle) = sampleTerm Idle.
Proof.
  split; [reflexivity|].
  destruct (runLastCmd_unconditional (sampleTerm Idle) [lit "build"]
              (lit "solana balance") (lit "help") eq_refl)
    as ((after & Hrun & Hsub & Hst & _) & Hidle & _).
  split.
  - exists after. repeat split; assumption.
  - now apply Hidle.
Defined.

End PgTermProofs.

(* ================================================================= *)
(** ** Further properties of [PgTerminal.parseCommand] *)

Module ParseCommandMore.

Import PgTerminal ParseCommandSpec.

Lemma trimStart_pad (w s : jsstring) :
  forallb isWhiteSpace w = true -> trimStart (w ++ s) = trimStart s.
Proof.
  induction w as [|c w IH]; simpl; [reflexivity|].
  intros H. apply andb_true_iff in H as [Hc Hw]. rewrite Hc. now apply IH.
Qed.

Lemma trimStart_blank (w : jsstring) :
  forallb isWhiteSpace w = true <-> trimStart w = [].
Proof.
  induction w as [|c w IH]; simpl; [tauto|].
  destruct (isWhiteSpace c); simpl; [exact IH|].
  split; discriminate.
Qed.

Lemma trimStart_app (s t : jsstring) :
  trimStart s <> [] -> trimStart (s ++ t) = trimStart s ++ t.
Proof.
  induction s as [|c s IH]; simpl; [congruence|].
  destruct (isWhiteSpace c); [exact IH|reflexivity].
Qed.

Lemma forallb_rev {A} (f : A -> bool) (l : list A) :
  forallb f (rev l) = forallb f l.
Proof.
  induction l as [|x l IH]; simpl; [reflexivity|].
  rewrite forallb_app, IH. simpl. rewrite andb_true_r. apply andb_comm.
Qed.

Lemma trimEnd_pad (s w : jsstring) :
  forallb isWhiteSpace w = true -> trimEnd (s ++ w) = trimEnd s.
Proof.
  intros H. unfold trimEnd. rewrite rev_app_distr, trimStart_pad;
    [reflexivity|]. now rewrite forallb_rev.
Qed.

(** White space around a line does not change what [trim] gives. *)
Lemma trim_pad (w1 s w2 : jsstring) :
  forallb isWhiteSpace w1 = true ->
  forallb isWhiteSpace w2 = true ->
  trim (w1 ++ s ++ w2) = trim s.
Proof.
  intros H1 H2. unfold trim. rewrite (trimStart_pad w1 _ H1).
  destruct (trimStart s) as [|c r] eqn:E.
  - apply trimStart_blank in E.
    assert (trimStart (s ++ w2) = []) as ->; [|reflexivity].
    apply trimStart_blank. rewrite forallb_app, E, H2. reflexivity.
  - rewrite trimStart_app by congruence. rewrite E.
    now apply trimEnd_pad.
Qed.

(** The six ways [parseCommand] can go, each with its outcome. *)
Lemma parseCommand_cases (env : Env) (cmd : jsstring) (wasm : option Wasm) :
  (trim cmd = lit "help" /\
   parseCommand env cmd wasm =
   (true, [Dispatch EVT_NAME_TERMINAL_LOG (DetailMsg HELP_TEXT);
           Dispatch EVT_NAME_TERMINAL_ENABLE (DetailEnabled true)])) \/
  (trim cmd = lit "build" /\
   parseCommand env cmd wasm =
   (true, [Dispatch EVT_NAME_TERMINAL_STATE (DetailAction buildStart)])) \/
  (trim cmd = lit "connect" /\
   parseCommand env cmd wasm =
   (true, [Dispatch EVT_NAME_TERMINAL_STATE
             (DetailAction walletConnectOrSetupStart)])) \/
  (trim cmd = lit "deploy" /\
   parseCommand env cmd wasm =
   (true, if isPgConnected env
          then [Dispatch EVT_NAME_TERMINAL_STATE (DetailAction deployStart)]
          else [])) \/
  (tokenUntil isSpace (trim cmd) = lit "solana" /\
   parseCommand env cmd wasm = (true, solanaEffects env (trim cmd) wasm)) \/
  (~ recognised cmd /\ parseCommand env cmd wasm = (false, [])).
Proof.
  destruct (jsstring_eq_dec (trim cmd) (lit "help")) as [E|N1].
  { left. split; [exact E|]. unfold parseCommand. now rewrite E. }
  destruct (jsstring_eq_dec (trim cmd) (lit "build")) as [E|N2].
  { right; left. split; [exact E|]. unfold parseCommand. now rewrite E. }
  destruct (jsstring_eq_dec (trim cmd) (lit "connect")) as [E|N3].
  { do 2 right; left. split; [exact E|]. unfold parseCommand.
    now rewrite E. }
  destruct (jsstring_eq_dec (trim cmd) (lit "deploy")) as [E|N4].
  { do 3 right; left. split; [exact E|]. unfold parseCommand. rewrite E.
    unfold checkIsPgConnected. now destruct (isPgConnected env). }
  destruct (jsstring_eq_dec (tokenUntil isSpace (trim cmd)) (lit "solana"))
    as [E|N5].
  { do 4 right; left. split; [exact E|].
    now apply ParseCommandProofs.solana_branch_outcome. }
  do 5 right.
  assert (~ recognised cmd) as NR.
  { unfold recognised, isBuiltin. tauto. }
  split; [exact NR|].
  unfold parseCommand.
  apply streq_false_iff in N1, N2, N3, N4. rewrite N1, N2, N3, N4.
  destruct (valeq _ _) eqn:V; [|reflexivity].
  apply ParseCommandProofs.valeq_cmdName in V. contradiction.
Qed.

(** X1: A line that is not recognised has no effect at all: nothing is
    dispatched, called or scheduled when [parseCommand] returns [false]. *)
Theorem parseCommand_unmatched_no_effect
  (env : Env) (cmd : jsstring) (wasm : option Wasm) :
  returned (parseCommand env cmd wasm) = false ->
  effects (parseCommand env cmd wasm) = [].
Proof.
  destruct (parseCommand_cases env cmd wasm)
    as [[_ ->] | [[_ ->] | [[_ ->] | [[_ ->] | [[_ ->] | [_ ->]]]]]];
    cbn; try discriminate; reflexivity.
Qed.

Lemma parseCommand_unmatched_no_effect_witness :
  effects (parseCommand Sample.connected (lit "unknown-xyz") None) = [].
Proof.
  apply (parseCommand_unmatched_no_effect Sample.connected
           (lit "unknown-xyz") None).
  reflexivity.
Defined.

(** X2: The package is called in one situation only: the trimmed line has
    [solana] before its first space, the package is loaded and the wallet
    is connected; the call then carries the trimmed line and exactly three
    arguments: the endpoint, the commitment and the key pair bytes, in that
    order. *)
Theorem parseCommand_calls_backend_iff
  (env : Env) (cmd line : jsstring) (wasm : option Wasm)
  (args : list cliArg) :
  In (CallParseSolana line args) (effects (parseCommand env cmd wasm)) <->
  tokenUntil isSpace (trim cmd) = lit "solana" /\
  backendLoaded wasm = true /\
  checkIsPgConnected env = true /\
  line = trim cmd /\
  args = [ArgString (endpoint env); ArgString (commitment env);
          ArgBytes (keypairBytes env)].
Proof.
  split.
  - destruct (parseCommand_cases env cmd wasm)
      as [[_ ->] | [[_ ->] | [[_ ->] | [[_ ->] | [[T ->] | [_ ->]]]]]];
      cbn.
    + intros [H | [H | []]]; discriminate H.
    + intros [H | []]; discriminate H.
    + intros [H | []]; discriminate H.
    + destruct (isPgConnected env); cbn; [|intros []].
      intros [H | []]; discriminate H.
    + unfold solanaEffects.
      destruct (backendLoaded wasm); [|intros [H | []]; discriminate H].
      destruct (checkIsPgConnected env); [|intros []].
      intros [H | [H | []]]; [|discriminate H].
      injection H as <- <-. repeat split; assumption.
    + intros [].
  - intros (T & L & C & -> & ->).
    rewrite (ParseCommandProofs.solana_branch_outcome env cmd wasm T).
    cbn. unfold solanaEffects. rewrite L, C. now left.
Qed.

(** X3: [parseCommand] itself enables the terminal again for [help] only; after
    every other line the terminal stays as the submit left it until
    something else enables it (for [solana], the timer). *)
Theorem parseCommand_enables_iff_help
  (env : Env) (cmd : jsstring) (wasm : option Wasm) :
  In (Dispatch EVT_NAME_TERMINAL_ENABLE (DetailEnabled true))
     (effects (parseCommand env cmd wasm)) <->
  trim cmd = lit "help".
Proof.
  split.
  - destruct (parseCommand_cases env cmd wasm)
      as [[E _] | [[_ ->] | [[_ ->] | [[_ ->] | [[T ->] | [_ ->]]]]]];
      cbn.
    + intros _. exact E.
    + intros [H | []]; discriminate H.
    + intros [H | []]; discriminate H.
    + destruct (isPgConnected env); cbn; [|intros []].
      intros [H | []]; discriminate H.
    + unfold solanaEffects.
      destruct (backendLoaded wasm); [|intros [H | []]; discriminate H].
      destruct (checkIsPgConnected env); [|intros []].
      intros [H | [H | []]]; discriminate H.
    + intros [].
  - intros E. unfold parseCommand. rewrite E. cbn. right. now left.
Qed.

(** X4: White space before and after the line changes nothing: the outcome is
    that of the line without it. *)
Theorem parseCommand_ignores_padding
  (env : Env) (w1 cmd w2 : jsstring) (wasm : option Wasm) :
  forallb isWhiteSpace w1 = true ->
  forallb isWhiteSpace w2 = true ->
  parseCommand env (w1 ++ cmd ++ w2) wasm = parseCommand env cmd wasm.
Proof.
  intros H1 H2. unfold parseCommand. now rewrite (trim_pad w1 cmd w2 H1 H2).
Qed.

Lemma parseCommand_ignores_padding_witness :
  parseCommand Sample.connected
    ([9%N; 32%N] ++ lit "solana balance" ++ [32%N; 10%N])
    (Some Sample.solanaCli)
  = parseCommand Sample.connected (lit "solana balance")
      (Some Sample.solanaCli).
Proof.
  apply (parseCommand_ignores_padding Sample.connected [9%N; 32%N]
           (lit "solana balance") [32%N; 10%N] (Some Sample.solanaCli));
    reflexivity.
Defined.

End ParseCommandMore.

(* ================================================================= *)
(** ** [PgTerminal.isCharValid] and [PgTerminal.colorText] *)

Module TextProofs.

Import PgTerminal.

(** The class of [isCharValid] is the printable part of ASCII, from the
    space to the tilde. *)
Lemma inValidClass_printable (c : char) :
  inValidClass c = (N.leb 32 c && N.leb c 126)%N.
Proof.
  destruct (N.le_gt_cases c 126) as [Hle|Hgt].
  - assert (forallb (fun n => Bool.eqb (inValidClass (N.of_nat n))
                                 (N.leb 32 (N.of_nat n) &&
                                  N.leb (N.of_nat n) 126)%N)
                    (seq 0 127) = true) as All by (vm_compute; reflexivity).
    rewrite forallb_forall in All.
    specialize (All (N.to_nat c)). rewrite N2Nat.id in All.
    apply eqb_prop. apply All. apply in_seq. lia.
  - assert (N.leb c 126 = false) as -> by (apply N.leb_gt; lia).
    rewrite andb_false_r. unfold inValidClass. apply orb_false_iff. split.
    + unfold isWordChar.
      assert (N.leb c 90 = false) as -> by (apply N.leb_gt; lia).
      assert (N.leb c 122 = false) as -> by (apply N.leb_gt; lia).
      assert (N.leb c 57 = false) as -> by (apply N.leb_gt; lia).
      assert (N.eqb c 95 = false) as -> by (apply N.eqb_neq; lia).
      now rewrite !andb_false_r.
    + destruct (existsb (N.eqb c) validSigns) eqn:E; [|reflexivity].
      apply existsb_exists in E as [x [Hin Hx]]. apply N.eqb_eq in Hx.
      subst x.
      assert (forallb (fun x => N.leb x 126) validSigns = true) as Small
        by (vm_compute; reflexivity).
      rewrite forallb_forall in Small. specialize (Small c Hin).
      apply N.leb_le in Small. lia.
Qed.

(** X5: [isCharValid] accepts exactly the non-empty strings of printable ASCII
    code units: the empty string, control characters (tab, line feed,
    escape) and everything beyond the tilde are refused. *)
Theorem isCharValid_iff_printable (s : jsstring) :
  isCharValid s = true <->
  s <> [] /\ Forall (fun c => (32 <= c <= 126)%N) s.
Proof.
  assert (forallb inValidClass s = true <->
          Forall (fun c => (32 <= c <= 126)%N) s) as H.
  { rewrite forallb_forall, Forall_forall.
    split; intros H c Hc; specialize (H c Hc);
      rewrite inValidClass_printable in *.
    - apply andb_true_iff in H as [H1 H2].
      apply N.leb_le in H1, H2. lia.
    - apply andb_true_iff. split; apply N.leb_le; lia. }
  destruct s as [|c s].
  - simpl. split; [discriminate|]. intros [N _]. congruence.
  - change (isCharValid (c :: s)) with (forallb inValidClass (c :: s)).
    rewrite H. split; [intros F; split; [discriminate|exact F]|tauto].
Qed.

(** A text in which none of the keywords occurs is left as it is. *)
Lemma colorTextWith_absent (texts : list TextInfo) (s : jsstring) :
  (forall t, In t texts -> includes s (text t) = false) ->
  colorTextWith texts s = s.
Proof.
  unfold colorTextWith. induction texts as [|t texts IH]; intros H;
    [reflexivity|].
  simpl. rewrite replaceAll_absent by (apply H; now left).
  apply IH. intros t' Ht'. apply H. now right.
Qed.

(** X6: [colorText] returns unchanged every text that contains none of the
    seven keywords ([error], [Error], [warning], [USAGE:], [OPTIONS:],
    [SUBCOMMANDS:], [COMMANDS:]): no escape sequence is added. *)
Theorem colorText_without_keyword (s : jsstring) :
  includes s (lit "error") = false ->
  includes s (lit "Error") = false ->
  includes s (lit "warning") = false ->
  includes s (lit "USAGE:") = false ->
  includes s (lit "OPTIONS:") = false ->
  includes s (lit "SUBCOMMANDS:") = false ->
  includes s (lit "COMMANDS:") = false ->
  colorText s = s.
Proof.
  intros H1 H2 H3 H4 H5 H6 H7. apply colorTextWith_absent.
  intros t [<- | [<- | [<- | [<- | [<- | [<- | [<- | []]]]]]]]; assumption.
Qed.

Lemma colorText_without_keyword_witness :
  colorText (lit "Build successful.") = lit "Build successful.".
Proof.
  apply (colorText_without_keyword (lit "Build successful."));
    reflexivity.
Defined.

End TextProofs.

(* ================================================================= *)
(** ** Further properties of [PgTerminal.convertErrorMessage] *)

Module ConvertErrorMessageMore.

Import PgTerminal ConvertErrorMessageSpec.

Lemma charAt_last (p : jsstring) :
  toStr (charAt p (Z.of_nat (length p) - 1)) = ixText p.
Proof.
  unfold ixText, charAt.
  destruct p as [|a p] using rev_ind; [reflexivity|].
  rewrite rev_app_distr, length_app. simpl.
  replace (Z.of_nat (length p + 1) - 1)%Z with (Z.of_nat (length p)) by lia.
  destruct (Z.ltb_spec (Z.of_nat (length p)) 0) as [H|_]; [lia|].
  rewrite Nat2Z.id, nth_error_app2, Nat.sub_diag by lia. reflexivity.
Qed.

Lemma charAt_second (a c : char) (r : jsstring) :
  charAt (a :: c :: r) 1 = JString [c].
Proof. reflexivity. Qed.

Lemma substringFrom_2 (a c : char) (r : jsstring) :
  substringFrom (a :: c :: r) 2 = r.
Proof.
  unfold substringFrom, clamp. change (Z.to_nat 2) with 2.
  rewrite Nat.min_l by (simpl; lia). reflexivity.
Qed.

Section Tables.

Variables PROGRAM_ERROR RPC_ERROR SERVER_ERROR OTHER_ERROR
  : list (jsstring * jsstring).
Variable isInt : jsval -> bool.
Variables toLowerCase toUpperCase : jsstring -> jsstring.

Local Notation "'convert'" :=
  (convertErrorMessage PROGRAM_ERROR RPC_ERROR SERVER_ERROR OTHER_ERROR
     isInt toLowerCase toUpperCase) (at level 0).

Lemma no_hex (msg : jsstring) :
  (forall e, In e PROGRAM_ERROR -> hexSuffix toLowerCase msg e = false) ->
  find (fun e : jsstring * jsstring =>
          endsWith msg (lit "0x" ++ toLowerCase (fst e))) PROGRAM_ERROR
  = None.
Proof. intros H. now apply find_all_false. Qed.

(** X7: A [failed to send] message of four segments with no hex suffix: the
    index is the last code unit of the third segment, taken as it is (the
    text [undefined] when that segment is empty, with no fallback to [0]),
    and the reason is the fourth segment without its first code unit, its
    second one in upper case, and a full stop added. *)
Theorem convertErrorMessage_failed_with_index
  (msg p0 p1 p2 rest : jsstring) (a c : char) :
  (forall e, In e PROGRAM_ERROR -> hexSuffix toLowerCase msg e = false) ->
  startsWith msg (lit "failed to send") = true ->
  segments msg = [p0; p1; p2; a :: c :: rest] ->
  convert msg =
  Ok (LF ++ bold (lit "Instruction index:") ++ lit " " ++ ixText p2 ++
      LF ++ bold (lit "Reason:") ++ lit " " ++
      toUpperCase [c] ++ rest ++ lit ".").
Proof.
  intros HP HF HS. unfold convertErrorMessage.
  rewrite (no_hex msg HP), HF.
  unfold segments in HS. rewrite HS.
  cbn -[lit bold substringFrom charAt].
  rewrite charAt_last, charAt_second. cbn -[lit bold substringFrom].
  rewrite substringFrom_2. rewrite <- ?app_assoc. reflexivity.
Qed.

(** X8: A [failed to send] message with no hex suffix and three segments, or
    five and more: no index is shown, and the reason is read from the
    third segment in the same way. *)
Theorem convertErrorMessage_failed_without_index
  (msg rest : jsstring) (a c : char) :
  (forall e, In e PROGRAM_ERROR -> hexSuffix toLowerCase msg e = false) ->
  startsWith msg (lit "failed to send") = true ->
  length (segments msg) <> 4 ->
  nth_error (segments msg) 2 = Some (a :: c :: rest) ->
  convert msg =
  Ok (LF ++ bold (lit "Reason:") ++ lit " " ++
      toUpperCase [c] ++ rest ++ lit ".").
Proof.
  intros HP HF HL HS. unfold convertErrorMessage.
  rewrite (no_hex msg HP), HF.
  unfold segments in HL, HS. apply Nat.eqb_neq in HL. rewrite HL.
  unfold at_. rewrite HS. cbn -[lit bold substringFrom charAt].
  rewrite charAt_second. cbn -[lit bold substringFrom].
  rewrite substringFrom_2. rewrite <- ?app_assoc. reflexivity.
Qed.

(** X9: With no hex suffix and no [failed to send] prefix, a message that
    contains a key of the RPC table becomes the text of the first such key
    in the order of the table, whatever the server and other tables
    hold. *)
Theorem convertErrorMessage_rpc (msg : jsstring) :
  (forall e, In e PROGRAM_ERROR -> hexSuffix toLowerCase msg e = false) ->
  startsWith msg (lit "failed to send") = false ->
  (exists e, In e RPC_ERROR /\ includes msg (fst e) = true) ->
  exists key text,
    find (fun e => includes msg (fst e)) RPC_ERROR = Some (key, text) /\
    includes msg key = true /\
    convert msg = Ok text.
Proof.
  intros HP HF HR.
  destruct (find_exists (fun e => includes msg (fst e)) RPC_ERROR HR)
    as [[key text] (Hfind & _ & Hinc)].
  exists key, text. split; [exact Hfind|]. split; [exact Hinc|].
  unfold convertErrorMessage. now rewrite (no_hex msg HP), HF, Hfind.
Qed.

(** X10: With none of the earlier forms, a message that is a key of the server
    table becomes a text that table lists for it; one that is a key of the
    other table only becomes a text of that table. *)
Theorem convertErrorMessage_exact (msg : jsstring) :
  (forall e, In e PROGRAM_ERROR -> hexSuffix toLowerCase msg e = false) ->
  startsWith msg (lit "failed to send") = false ->
  (forall e, In e RPC_ERROR -> includes msg (fst e) = false) ->
  ((exists e, In e SERVER_ERROR /\ fst e = msg) ->
   exists text, In (msg, text) SERVER_ERROR /\ convert msg = Ok text) /\
  ((forall e, In e SERVER_ERROR -> fst e <> msg) ->
   (exists e, In e OTHER_ERROR /\ fst e = msg) ->
   exists text, In (msg, text) OTHER_ERROR /\ convert msg = Ok text).
Proof.
  intros HP HF HR.
  assert (forall tbl : list (jsstring * jsstring),
             (exists e, In e tbl /\ fst e = msg) ->
             exists text, find (fun e => streq msg (fst e)) tbl
                          = Some (msg, text) /\ In (msg, text) tbl) as Key.
  { intros tbl [e [Hin He]].
    destruct (find_exists (fun e => streq msg (fst e)) tbl)
      as [[k text] (Hfind & Hin' & Hk)].
    - exists e. split; [exact Hin|]. apply streq_true_iff. now symmetry.
    - apply streq_true_iff in Hk. simpl in Hk. subst k.
      now exists text. }
  unfold convertErrorMessage.
  rewrite (no_hex msg HP), HF.
  rewrite (find_all_false (fun e => includes msg (fst e)) _ HR).
  split.
  - intros HS. destruct (Key SERVER_ERROR HS) as [text [Hfind Hin]].
    exists text. split; [exact Hin|]. now rewrite Hfind.
  - intros HN HO. destruct (Key OTHER_ERROR HO) as [text [Hfind Hin]].
    exists text. split; [exact Hin|].
    rewrite (find_all_false (fun e => streq msg (fst e)) SERVER_ERROR).
    + now rewrite Hfind.
    + intros e He. apply streq_false_iff. intros E. now apply (HN e He).
Qed.

End Tables.

Lemma convertErrorMessage_failed_with_index_witness :
  Sample.convert failedWithIndex =
  Ok (LF ++ bold (lit "Instruction index:") ++ lit " 0" ++
      LF ++ bold (lit "Reason:") ++ lit " Invalid account data.").
Proof.
  apply (convertErrorMessage_failed_with_index Sample.PROGRAM_ERROR
           Sample.RPC_ERROR Sample.SERVER_ERROR Sample.OTHER_ERROR
           Sample.isInt Sample.toLowerCase Sample.toUpperCase
           failedWithIndex
           (lit "failed to send transaction")
           (lit " Transaction simulation failed")
           (lit " Error processing Instruction 0")
           (lit "nvalid account data") 32%N 105%N).
  - intros e [<- | [<- | []]]; reflexivity.
  - reflexivity.
  - reflexivity.
Defined.

Lemma convertErrorMessage_failed_without_index_witness :
  Sample.convert failedWithoutIndex =
  Ok (LF ++ bold (lit "Reason:") ++ lit " Blockhash not found.").
Proof.
  apply (convertErrorMessage_failed_without_index Sample.PROGRAM_ERROR
           Sample.RPC_ERROR Sample.SERVER_ERROR Sample.OTHER_ERROR
           Sample.isInt Sample.toLowerCase Sample.toUpperCase
           failedWithoutIndex (lit "lockhash not found") 32%N 98%N).
  - intros e [<- | [<- | []]]; reflexivity.
  - reflexivity.
  - cbn. discriminate.
  - reflexivity.
Defined.

Lemma convertErrorMessage_rpc_witness :
  Sample.convert (lit "Error: 403 Forbidden") = Ok (lit "Rate limit exceeded").
Proof.
  destruct (convertErrorMessage_rpc Sample.PROGRAM_ERROR Sample.RPC_ERROR
              Sample.SERVER_ERROR Sample.OTHER_ERROR Sample.isInt
              Sample.toLowerCase Sample.toUpperCase
              (lit "Error: 403 Forbidden"))
    as (key & text & Hfind & _ & Hconv).
  - intros e [<- | [<- | []]]; reflexivity.
  - reflexivity.
  - exists (lit "403", lit "Rate limit exceeded"). split; [now left|].
    reflexivity.
  - vm_compute in Hfind. injection Hfind as <- <-. exact Hconv.
Defined.

Lemma convertErrorMessage_exact_witness :
  exists text,
    In (lit "Failed to fetch", text) Sample.SERVER_ERROR /\
    Sample.convert (lit "Failed to fetch") = Ok text.
Proof.
  apply (convertErrorMessage_exact Sample.PROGRAM_ERROR Sample.RPC_ERROR
           Sample.SERVER_ERROR Sample.OTHER_ERROR Sample.isInt
           Sample.toLowerCase Sample.toUpperCase (lit "Failed to fetch")).
  - intros e [<- | [<- | []]]; reflexivity.
  - reflexivity.
  - intros e [<- | []]; reflexivity.
  - exists (lit "Failed to fetch", lit "Unable to reach the server").
    split; [now left|reflexivity].
Defined.

End ConvertErrorMessageMore.

(* ================================================================= *)
(** ** Further properties of [PgTerminal.editStderr] *)

Module EditStderrMore.

Import PgTerminal EditStderrSpec.

(** [editStderr] is its five statements in a row. *)
Lemma editStderr_stages (stderr uuid : jsstring) :
  editStderr stderr uuid =
  bannerFinished
    (stripCompiling
       (stripTrailer (replaceAll (removeFullPathFrom stderr 0) uuid []))).
Proof. reflexivity. Qed.

Lemma replace_absent (s p r : jsstring) :
  includes s p = false -> replace s p r = s.
Proof.
  intros H. unfold replace. now rewrite (includes_false_search s p H).
Qed.

Lemma stripTrailer_absent (s : jsstring) :
  includes s (lit "For more") = false -> stripTrailer s = s.
Proof.
  intros H. unfold stripTrailer. now rewrite (indexOf_absent _ _ H).
Qed.

Lemma bannerFinished_absent (s : jsstring) :
  includes s (lit "Finished release") = false -> bannerFinished s = s.
Proof.
  intros H. unfold bannerFinished. now rewrite (indexOf_absent _ _ H).
Qed.

(** Searching one code unit: it is found after a text that has none. *)
Lemma search_unit_first (l b : jsstring) (c : char) (k : nat) :
  ~ In c l -> search (l ++ c :: b) [c] k = Some (k + length l).
Proof.
  revert k. induction l as [|d l IH]; intros k H.
  - simpl. rewrite N.eqb_refl. simpl. f_equal. lia.
  - simpl. destruct (N.eqb_spec d c) as [E|N].
    + exfalso. apply H. now left.
    + simpl. rewrite IH by (intros Hin; apply H; now right).
      f_equal. simpl. lia.
Qed.

Lemma search_unit_absent (l : jsstring) (c : char) (k : nat) :
  ~ In c l -> search l [c] k = None.
Proof.
  revert k. induction l as [|d l IH]; intros k H; [reflexivity|].
  simpl. destruct (N.eqb_spec d c) as [E|N].
  - exfalso. apply H. now left.
  - simpl. apply IH. intros Hin. apply H. now right.
Qed.

Lemma search_shift (s p : jsstring) (k : nat) :
  search s p k = option_map (fun j => k + j) (search s p 0).
Proof.
  revert k. induction s as [|c s IH]; intros k; simpl;
    destruct (startsWith _ p); simpl; try (f_equal; lia); try reflexivity.
  rewrite (IH (S k)), (IH 1).
  destruct (search s p 0); simpl; [f_equal; lia|reflexivity].
Qed.

(** [indexOf] from the end of a prefix searches what follows it. *)
Lemma indexOf_after (x y p : jsstring) :
  indexOf (x ++ y) p (Z.of_nat (length x)) =
  match search y p 0 with
  | Some j => Z.of_nat (length x + j)
  | None => (-1)%Z
  end.
Proof.
  unfold indexOf, clamp. rewrite Nat2Z.id, length_app.
  rewrite Nat.min_l by lia.
  rewrite skipn_app, skipn_all, Nat.sub_diag. simpl.
  rewrite search_shift. now destruct (search y p 0).
Qed.

Lemma substring_prefix (x y : jsstring) :
  substring (x ++ y) 0 (Z.of_nat (length x)) = x.
Proof.
  unfold substring, clamp. rewrite Nat2Z.id, length_app. simpl.
  rewrite (Nat.min_l (length x)) by lia. simpl.
  rewrite Nat.sub_0_r, firstn_app, firstn_all, Nat.sub_diag. simpl.
  apply app_nil_r.
Qed.

Lemma substringFrom_suffix (x y : jsstring) :
  substringFrom (x ++ y) (Z.of_nat (length x)) = y.
Proof.
  unfold substringFrom, clamp. rewrite Nat2Z.id, length_app.
  rewrite Nat.min_l by lia.
  now rewrite skipn_app, skipn_all, Nat.sub_diag.
Qed.

(** The search of the goal has the value [v], as the fact [H] tells once
    the notations are seen through. *)
Ltac search_is v H :=
  match goal with
  | |- context [search ?x ?p ?k] =>
      replace (search x p k) with v by (symmetry; exact H)
  end.

Lemma trailer_one_line (l : jsstring) :
  ~ In 10%N l -> ~ In 10%N (lit "For more" ++ l).
Proof.
  intros Hl Hin. apply in_app_or in Hin as [Hin | Hin]; [|now apply Hl].
  vm_compute in Hin.
  repeat (destruct Hin as [Hin|Hin]; [discriminate Hin|]). exact Hin.
Qed.

(** The trailer line goes, from [For more] to the end of its line; [m] is
    the line from [For more] on. *)
Lemma stripTrailer_line (a m b : jsstring) :
  indexOf (a ++ m ++ LF ++ b) (lit "For more") 0 = Z.of_nat (length a) ->
  ~ In 10%N m ->
  stripTrailer (a ++ m ++ LF ++ b) = a ++ b.
Proof.
  intros Hfirst Hm. unfold stripTrailer. rewrite Hfirst.
  destruct (Z.eqb_spec (Z.of_nat (length a)) (-1)) as [E|_]; [lia|].
  rewrite indexOf_after, substring_prefix.
  search_is (Some (0 + length m)) (search_unit_first m b 10%N 0 Hm).
  simpl plus.
  replace (Z.of_nat (length a + length m) + 1)%Z
    with (Z.of_nat (length (a ++ m ++ [10%N])))
    by (rewrite !length_app; simpl; lia).
  rewrite <- (substringFrom_suffix (a ++ m ++ [10%N]) b) at 2.
  f_equal. f_equal. now rewrite <- !app_assoc.
Qed.

(** With no line feed after [For more], the text before it is put in
    front of the whole text. *)
Lemma stripTrailer_unterminated (a m : jsstring) :
  indexOf (a ++ m) (lit "For more") 0 = Z.of_nat (length a) ->
  ~ In 10%N m ->
  stripTrailer (a ++ m) = a ++ a ++ m.
Proof.
  intros Hfirst Hm. unfold stripTrailer. rewrite Hfirst.
  destruct (Z.eqb_spec (Z.of_nat (length a)) (-1)) as [E|_]; [lia|].
  rewrite indexOf_after, substring_prefix.
  search_is (@None nat) (search_unit_absent m 10%N 0 Hm).
  reflexivity.
Qed.









(** *** The removal of a path *)

Lemma untilSpace_word (path rest : jsstring) (w : char) :
  forallb (fun c => negb (isWhiteSpace c)) path = true ->
  isWhiteSpace w = true ->
  untilSpace (path ++ w :: rest) = Some (length path).
Proof.
  intros Hp Hw. induction path as [|d path IH]; simpl.
  - now rewrite Hw.
  - simpl in Hp. apply andb_true_iff in Hp as [Hd Hp].
    apply negb_true_iff in Hd. rewrite Hd, (IH Hp). reflexivity.
Qed.

Lemma not_space_not_terminator (d : char) :
  isWhiteSpace d = false -> isLineTerminator d = false.
Proof.
  unfold isWhiteSpace. intros H.
  now destruct (isLineTerminator d); [rewrite orb_true_r in H|].
Qed.

(** The expression matches at a white space followed by [(/home] and a
    word: the match ends before the white space after the word. *)
Lemma matchFullPath_word (c d w : char) (path rest : jsstring) :
  isWhiteSpace c = true ->
  forallb (fun c => negb (isWhiteSpace c)) (d :: path) = true ->
  isWhiteSpace w = true ->
  matchFullPath (c :: lit "(/home" ++ (d :: path) ++ w :: rest)
  = Some (8 + length path).
Proof.
  intros Hc Hp Hw. simpl in Hp. apply andb_true_iff in Hp as [Hd Hp].
  apply negb_true_iff in Hd.
  unfold matchFullPath. rewrite Hc, startsWith_app. simpl.
  rewrite (not_space_not_terminator d Hd).
  now rewrite (untilSpace_word path rest w Hp Hw).
Qed.

Lemma removeFullPathFrom_skip (x y : jsstring) :
  removeFullPathFrom (x ++ y) (length x) = removeFullPathFrom y 0.
Proof.
  induction x as [|a x IH]; [reflexivity|]. simpl. exact IH.
Qed.

Lemma removeFullPathFrom_cons (c : char) (s : jsstring) :
  removeFullPathFrom (c :: s) 0 =
  match matchFullPath (c :: s) with
  | Some n => removeFullPathFrom s (n - 1)
  | None => c :: removeFullPathFrom s 0
  end.
Proof. reflexivity. Qed.

(** No match starts where the next code unit is not an opening
    parenthesis. *)
Lemma matchFullPath_needs_paren (x h : char) (t : jsstring) :
  h <> 40%N -> matchFullPath (x :: h :: t) = None.
Proof.
  intros H. unfold matchFullPath.
  assert (startsWith (h :: t) (lit "(/home") = false) as ->.
  { simpl. apply N.eqb_neq in H. now rewrite H. }
  now rewrite andb_false_r.
Qed.

Lemma removeFullPathFrom_plain (a s : jsstring) (c : char) :
  ~ In 40%N a -> c <> 40%N ->
  removeFullPathFrom (a ++ c :: s) 0 = a ++ removeFullPathFrom (c :: s) 0.
Proof.
  intros Ha Hc. induction a as [|x a IH]; [reflexivity|].
  assert (~ In 40%N a) as Ha' by (intros H; apply Ha; now right).
  change ((x :: a) ++ c :: s) with (x :: (a ++ c :: s)).
  rewrite removeFullPathFrom_cons.
  assert (matchFullPath (x :: a ++ c :: s) = None) as ->.
  { destruct a as [|h a]; apply matchFullPath_needs_paren; [exact Hc|].
    intros E. apply Ha. right. left. now symmetry. }
  now rewrite (IH Ha').
Qed.

(** One path in a text that is plain before it and has no other match
    after it: the path goes with the white space before it, the white
    space after it stays. *)
Lemma removeFullPathFrom_one (a path rest : jsstring) (c d w : char) :
  ~ In 40%N a ->
  isWhiteSpace c = true ->
  forallb (fun c => negb (isWhiteSpace c)) (d :: path) = true ->
  isWhiteSpace w = true ->
  testFullPath (w :: rest) = false ->
  removeFullPathFrom (a ++ c :: lit "(/home" ++ (d :: path) ++ w :: rest) 0
  = a ++ w :: rest.
Proof.
  intros Ha Hc Hp Hw Hrest.
  rewrite removeFullPathFrom_plain; [|exact Ha|].
  2:{ intros ->. discriminate Hc. }
  rewrite removeFullPathFrom_cons.
  rewrite (matchFullPath_word c d w path rest Hc Hp Hw).
  replace (8 + length path - 1)
    with (length (lit "(/home" ++ d :: path))
    by (rewrite length_app; simpl; lia).
  replace (lit "(/home" ++ (d :: path) ++ w :: rest)
    with ((lit "(/home" ++ d :: path) ++ w :: rest)
    by (now rewrite <- app_assoc).
  rewrite removeFullPathFrom_skip.
  now rewrite (EditStderrProofs.removeFullPathFrom_absent _ Hrest).
Qed.

(** *** The whole function *)

(** X11: A text with nothing to edit comes back unchanged: no path fragment, no
    uuid, no [For more], no Compiling banner, no [Finished release]. *)
Theorem editStderr_clean (stderr uuid : jsstring) :
  testFullPath stderr = false ->
  includes stderr uuid = false ->
  includes stderr (lit "For more") = false ->
  includes stderr COMPILING = false ->
  includes stderr (lit "Finished release") = false ->
  editStderr stderr uuid = stderr.
Proof.
  intros Hpath Huuid Hmore Hcomp Hfin. rewrite editStderr_stages.
  rewrite (EditStderrProofs.removeFullPathFrom_absent _ Hpath).
  rewrite (replaceAll_absent _ _ [] Huuid).
  rewrite (stripTrailer_absent _ Hmore).
  unfold stripCompiling. rewrite (replace_absent _ _ [] Hcomp).
  now apply bannerFinished_absent.
Qed.

Lemma editStderr_clean_witness :
  editStderr (lit "warning: unused variable" ++ LF) (lit "0a1b2c")
  = lit "warning: unused variable" ++ LF.
Proof.
  apply (editStderr_clean (lit "warning: unused variable" ++ LF)
           (lit "0a1b2c")); reflexivity.
Defined.

(** X12: The rustc trailer: in a text with no path and no uuid, the line from
    the first [For more] up to and including its line feed is removed, and
    nothing else changes as long as what is left has no Compiling banner
    and no [Finished release]. *)
Theorem editStderr_removes_trailer (stderr uuid a l b : jsstring) :
  stderr = a ++ lit "For more" ++ l ++ LF ++ b ->
  indexOf stderr (lit "For more") 0 = Z.of_nat (length a) ->
  ~ In 10%N l ->
  testFullPath stderr = false ->
  includes stderr uuid = false ->
  includes (a ++ b) COMPILING = false ->
  includes (a ++ b) (lit "Finished release") = false ->
  editStderr stderr uuid = a ++ b.
Proof.
  intros -> Hfirst Hl Hpath Huuid Hcomp Hfin. rewrite editStderr_stages.
  rewrite (EditStderrProofs.removeFullPathFrom_absent _ Hpath).
  rewrite (replaceAll_absent _ _ [] Huuid).
  assert (stripTrailer (a ++ lit "For more" ++ l ++ LF ++ b) = a ++ b)
    as ->.
  { exact (stripTrailer_line a (lit "For more" ++ l) b Hfirst
             (trailer_one_line l Hl)). }
  unfold stripCompiling. rewrite (replace_absent _ _ [] Hcomp).
  now apply bannerFinished_absent.
Qed.

Lemma editStderr_removes_trailer_witness :
  editStderr
    (lit "error: aborting" ++ LF ++
     lit "For more information about this error, try rustc." ++ LF ++
     lit "done" ++ LF)
    (lit "0a1b2c")
  = lit "error: aborting" ++ LF ++ lit "done" ++ LF.
Proof.
  apply (editStderr_removes_trailer _ (lit "0a1b2c")
           (lit "error: aborting" ++ LF)
           (lit " information about this error, try rustc.")
           (lit "done" ++ LF)); try reflexivity.
  vm_compute. intros H.
  repeat (destruct H as [H|H]; [discriminate H|]). exact H.
Defined.

(** X13: The same trailer as the last line, with no line feed after it: the
    text before [For more] is put in front of the whole text, which stays
    (the end of the line is looked for, not found, and the cut starts at
    position 0). *)
Theorem editStderr_unterminated_trailer (stderr uuid a l : jsstring) :
  stderr = a ++ lit "For more" ++ l ->
  indexOf stderr (lit "For more") 0 = Z.of_nat (length a) ->
  ~ In 10%N l ->
  testFullPath stderr = false ->
  includes stderr uuid = false ->
  includes (a ++ stderr) COMPILING = false ->
  includes (a ++ stderr) (lit "Finished release") = false ->
  editStderr stderr uuid = a ++ stderr.
Proof.
  intros -> Hfirst Hl Hpath Huuid Hcomp Hfin. rewrite editStderr_stages.
  rewrite (EditStderrProofs.removeFullPathFrom_absent _ Hpath).
  rewrite (replaceAll_absent _ _ [] Huuid).
  rewrite (stripTrailer_unterminated a (lit "For more" ++ l) Hfirst
             (trailer_one_line l Hl)).
  unfold stripCompiling. rewrite (replace_absent _ _ [] Hcomp).
  now apply bannerFinished_absent.
Qed.

Lemma editStderr_unterminated_trailer_witness :
  editStderr (lit "error" ++ LF ++ lit "For more information")
             (lit "0a1b2c")
  = lit "error" ++ LF ++ lit "error" ++ LF ++ lit "For more information".
Proof.
  apply (editStderr_unterminated_trailer _ (lit "0a1b2c")
           (lit "error" ++ LF) (lit " information")); try reflexivity.
  vm_compute. intros H.
  repeat (destruct H as [H|H]; [discriminate H|]). exact H.
Defined.



(** X15: A path in parentheses: in a text with no opening parenthesis before
    it, the white space, [(/home] and the word after it are removed, the
    white space that ends the word stays, and nothing else changes when
    the rest has nothing to edit. *)
Theorem editStderr_removes_path
  (stderr uuid a path rest : jsstring) (c d w : char) :
  stderr = a ++ c :: lit "(/home" ++ (d :: path) ++ w :: rest ->
  ~ In 40%N a ->
  isWhiteSpace c = true ->
  forallb (fun c => negb (isWhiteSpace c)) (d :: path) = true ->
  isWhiteSpace w = true ->
  testFullPath (w :: rest) = false ->
  includes (a ++ w :: rest) uuid = false ->
  includes (a ++ w :: rest) (lit "For more") = false ->
  includes (a ++ w :: rest) COMPILING = false ->
  includes (a ++ w :: rest) (lit "Finished release") = false ->
  editStderr stderr uuid = a ++ w :: rest.
Proof.
  intros -> Ha Hc Hp Hw Hrest Huuid Hmore Hcomp Hfin.
  rewrite editStderr_stages.
  rewrite (removeFullPathFrom_one a path rest c d w Ha Hc Hp Hw Hrest).
  rewrite (replaceAll_absent _ _ [] Huuid).
  rewrite (stripTrailer_absent _ Hmore).
  unfold stripCompiling. rewrite (replace_absent _ _ [] Hcomp).
  now apply bannerFinished_absent.
Qed.

Lemma editStderr_removes_path_witness :
  editStderr
    (lit "   Checking solpg v0.1.0 (/home/ubuntu/programs/0a1b2c)" ++ LF)
    (lit "0a1b2c")
  = lit "   Checking solpg v0.1.0" ++ LF.
Proof.
  apply (editStderr_removes_path _ (lit "0a1b2c")
           (lit "   Checking solpg v0.1.0")
           (lit "ubuntu/programs/0a1b2c)") [] 32%N 47%N 10%N);
    try reflexivity.
  vm_compute. intros H.
  repeat (destruct H as [H|H]; [discriminate H|]). exact H.
Defined.



End EditStderrMore.

(* ================================================================= *)
(** ** Further properties of [PgTerm.print] *)

Module PgTermMore.

Import PgTerm PgTermSpec.

Lemma includes_cons (c : char) (t p : jsstring) :
  includes (c :: t) p = startsWith (c :: t) p || includes t p.
Proof.
  unfold includes. simpl. destruct (startsWith (c :: t) p); [reflexivity|].
  simpl. destruct (search t p 1) as [j|] eqn:E.
  - destruct (search t p 0) eqn:E0; [reflexivity|].
    now rewrite (search_none_shift t p 0 1 E0) in E.
  - now rewrite (search_none_shift t p 1 0 E).
Qed.

Lemma startsWith_LF (s : jsstring) :
  startsWith s LF = true -> exists t, s = 10%N :: t.
Proof.
  intros H. apply startsWith_true_inv in H as [t ->]. now exists t.
Qed.

(** Where the text has no three line feeds in a row, the rewritten text has
    no two; and the rewritten text starts with a line feed only if the text
    does. *)
Lemma Respaced_no_double (s o : jsstring) :
  Respaced s o ->
  includes s (LF ++ LF ++ LF) = false ->
  includes o (LF ++ LF) = false /\
  (startsWith o LF = true -> startsWith s LF = true).
Proof.
  induction 1 as [|s o H IH|c s o Hc H IH]; intros Hs.
  - split; [reflexivity|discriminate].
  - change (LF ++ LF ++ s) with (10%N :: 10%N :: s) in Hs.
    rewrite !includes_cons in Hs.
    apply orb_false_iff in Hs as [H1 Hs].
    apply orb_false_iff in Hs as [_ Hs].
    destruct (IH Hs) as [IHo IHs]. split; [|reflexivity].
    change (LF ++ lit " " ++ LF ++ o) with (10%N :: 32%N :: 10%N :: o).
    rewrite !includes_cons, IHo.
    destruct (startsWith o LF) eqn:E.
    + destruct (startsWith_LF s (IHs eq_refl)) as [t ->].
      discriminate H1.
    + destruct o as [|x o]; [reflexivity|].
      simpl in E. rewrite andb_true_r in E. simpl. now rewrite E.
  - rewrite includes_cons in Hs. apply orb_false_iff in Hs as [_ Hs].
    destruct (IH Hs) as [IHo IHs]. split.
    + rewrite includes_cons, IHo, orb_false_r.
      destruct (N.eqb_spec c 10) as [->|N];
        [|simpl; apply N.eqb_neq in N; now rewrite N].
      destruct (startsWith o LF) eqn:E.
      * destruct (startsWith_LF s (IHs eq_refl)) as [t ->].
        discriminate Hc.
      * destruct o as [|x o]; [reflexivity|].
        simpl in E. rewrite andb_true_r in E. simpl. now rewrite E.
    + simpl. now rewrite !andb_true_r.
Qed.

(** X17: The rewriting of [print] does what its comment wants as long as no
    three line feeds come in a row: an open terminal that is not prompting
    is handed exactly one text, and it has no two line feeds in a row. *)
Theorem print_no_double_newline
  (message : jsstring) (sync : option bool) (this : PgTerm) :
  includes message (LF ++ LF ++ LF) = false ->
  isOpen this = true ->
  PgShell.isPrompting (pgShell this) = false ->
  exists handed,
    printed (print message sync this) = printed this ++ [(handed, sync)] /\
    includes handed (LF ++ LF) = false.
Proof.
  intros Hm Ho Hp. exists (respace message). split.
  - unfold print. rewrite Ho, Hp. simpl.
    now rewrite (PgTermProofs.printed_withTty this _
                   [OpPrint (respace message) sync]).
  - apply (Respaced_no_double message (respace message));
      [apply PgTermProofs.respace_Respaced_aux|exact Hm].
Qed.

Lemma print_no_double_newline_witness :
  exists handed,
    printed (print (lit "a" ++ LF ++ LF ++ lit "b") None
                   (sampleTerm Dispatching))
    = printed (sampleTerm Dispatching) ++ [(handed, None)] /\
    includes handed (LF ++ LF) = false.
Proof.
  apply (print_no_double_newline (lit "a" ++ LF ++ LF ++ lit "b") None
           (sampleTerm Dispatching)); reflexivity.
Defined.

End PgTermMore.

(* ================================================================= *)
(** ** [processDeploy] *)

Module ProcessDeployProofs.

Import ProcessDeploy.

Section ConfigLines.

Context {ConfigLine : Type}.
Implicit Type configLineChunks : list (Chunk ConfigLine).

Lemma fold_thrown {A B} (f : result A -> B -> result A) (l : list B)
  (e : exn) :
  (forall b, f (Throw e) b = Throw e) ->
  fold_left f l (Throw e) = Throw e.
Proof.
  intros H. induction l as [|b l IH]; simpl; [reflexivity|].
  now rewrite H.
Qed.

Lemma firstn_snoc {A} (l : list A) (m : nat) (x : A) :
  nth_error l m = Some x -> firstn (S m) l = firstn m l ++ [x].
Proof.
  revert m. induction l as [|a l IH]; intros [|m] H; try discriminate.
  - now injection H as ->.
  - simpl in H. change (firstn (S (S m)) (a :: l))
      with (a :: firstn (S m) l).
    now rewrite (IH m H).
Qed.

(** The sum after the first [m] turns of the callback, for [m] up to [n]
    and up to the number of chunks. *)
Lemma total_prefix configLineChunks (n m : nat) :
  m <= n -> m <= length configLineChunks ->
  fold_left
    (fun acc i =>
       rbind acc (fun acc =>
       if n =? i then Ok (acc + 0)
       else rbind (chunkSize configLineChunks i)
                  (fun size => Ok (acc + size))))
    (seq 0 m) (Ok 0)
  = Ok (linesBefore configLineChunks m).
Proof.
  induction m as [|m IH]; intros Hn Hl; [reflexivity|].
  rewrite seq_S, fold_left_app, IH by lia.
  cbn [fold_left rbind plus].
  assert ((n =? m) = false) as -> by (apply Nat.eqb_neq; lia).
  unfold chunkSize.
  destruct (nth_error configLineChunks m) as [chunk|] eqn:E.
  - cbn [rbind]. unfold linesBefore. rewrite (firstn_snoc _ _ _ E).
    rewrite flat_map_app, length_app. simpl. now rewrite app_nil_r.
  - apply nth_error_None in E. lia.
Qed.

Lemma total_spec configLineChunks (n : nat) :
  getTotalConfigLinesUntilChunkN configLineChunks n =
  if n <=? length configLineChunks
  then Ok (linesBefore configLineChunks n)
  else Throw TypeError.
Proof.
  unfold getTotalConfigLinesUntilChunkN.
  destruct (Nat.leb_spec n (length configLineChunks)) as [Hle|Hgt].
  - now apply total_prefix.
  - assert (seq 0 n =
            seq 0 (length configLineChunks) ++
            length configLineChunks ::
            seq (S (length configLineChunks))
                (n - S (length configLineChunks))) as ->.
    { replace n with (length configLineChunks +
                      S (n - S (length configLineChunks))) at 1 by lia.
      now rewrite seq_app. }
    rewrite fold_left_app, total_prefix by lia.
    cbn [fold_left rbind].
    assert ((n =? length configLineChunks) = false) as ->
      by (apply Nat.eqb_neq; lia).
    unfold chunkSize.
    assert (nth_error configLineChunks (length configLineChunks) = None)
      as -> by (apply nth_error_None; lia).
    simpl. now apply fold_thrown.
Qed.

(** The positions a worker reaches from [j] on: those within the chunks
    that lie a multiple of [CONCURRENT] after [j + i]. *)
Lemma worker_In configLineChunks (i j k : nat) :
  In k (worker configLineChunks i j) <->
  k < length configLineChunks /\ exists m, k = j + i + CONCURRENT * m.
Proof.
  funelim (worker configLineChunks i j).
  - match goal with
    | IH : forall k, In k _ <-> _ |- _ => rename IH into IHw
    end.
    assert (j + i < length configLineChunks) as Hlt
      by (apply nth_error_Some; congruence).
    simpl. rewrite IHw. unfold CONCURRENT. split.
    + intros [<- | [Hk [m ->]]].
      * split; [exact Hlt|]. exists 0. lia.
      * split; [exact Hk|]. exists (S m). lia.
    + intros [Hk [[|m] ->]].
      * left. lia.
      * right. split; [exact Hk|]. exists m. lia.
  - assert (length configLineChunks <= j + i) as Hge
      by (now apply nth_error_None).
    simpl. split; [intros []|]. intros [Hk [m ->]]. lia.
Qed.

Lemma worker_NoDup configLineChunks (i j : nat) :
  NoDup (worker configLineChunks i j).
Proof.
  funelim (worker configLineChunks i j); [|constructor].
  constructor; [|assumption].
  rewrite worker_In. unfold CONCURRENT. intros [_ [m Hm]]. lia.
Qed.

(** The worker [i] works on the positions whose remainder by [CONCURRENT]
    is [i], and on no position beyond the chunks. *)
Lemma worker_positions configLineChunks (i k : nat) :
  i < CONCURRENT ->
  (In k (worker configLineChunks i 0) <->
   k < length configLineChunks /\ k mod CONCURRENT = i).
Proof.
  intros Hi. rewrite worker_In. unfold CONCURRENT in *.
  split; intros [Hk H]; (split; [exact Hk|]).
  - destruct H as [m ->]. symmetry.
    apply (Nat.mod_unique (0 + i + 8 * m) 8 m i); lia.
  - exists (k / 8). pose proof (Nat.div_mod_eq k 8). lia.
Qed.

Lemma NoDup_flat_map {A B} (f : A -> list B) (l : list A) :
  NoDup l ->
  (forall x, In x l -> NoDup (f x)) ->
  (forall x y b, In x l -> In y l -> x <> y ->
                 In b (f x) -> ~ In b (f y)) ->
  NoDup (flat_map f l).
Proof.
  induction 1 as [|x l Hx Hl IH]; intros Hf Hd; simpl; [constructor|].
  apply NoDup_app.
  - apply Hf. now left.
  - apply IH.
    + intros y Hy. apply Hf. now right.
    + intros y z b Hy Hz. apply Hd; now right.
  - intros b Hb Hb'. apply in_flat_map in Hb' as [y [Hy Hby]].
    apply (Hd x y b); try assumption; [now left|now right|].
    intros ->. contradiction.
Qed.

Lemma workers_Permutation configLineChunks :
  Permutation
    (flat_map (fun i => worker configLineChunks i 0) (seq 0 CONCURRENT))
    (seq 0 (length configLineChunks)).
Proof.
  apply NoDup_Permutation.
  - apply NoDup_flat_map.
    + apply seq_NoDup.
    + intros i _. apply worker_NoDup.
    + intros x y b Hx Hy Hxy Hbx Hby.
      apply in_seq in Hx, Hy.
      apply worker_positions in Hbx, Hby; try lia.
  - apply seq_NoDup.
  - intros k. rewrite in_flat_map, in_seq. split.
    + intros [i [Hi Hk]]. apply in_seq in Hi.
      apply worker_positions in Hk; lia.
    + intros Hk. exists (k mod CONCURRENT). split.
      * apply in_seq. pose proof (Nat.mod_upper_bound k CONCURRENT).
        unfold CONCURRENT in *. lia.
      * apply worker_positions.
        -- apply Nat.mod_upper_bound. discriminate.
        -- split; [lia|reflexivity].
Qed.

(** The test of the first chunk fails exactly when the first chunk is
    there and has items. *)
Lemma allDeployed_false_iff configLineChunks :
  allDeployed configLineChunks = false <->
  firstChunkHasItems configLineChunks.
Proof.
  unfold allDeployed, firstChunkHasItems.
  destruct configLineChunks as [|chunk rest]; simpl.
  - split; [discriminate|]. intros (c & r & H & _). discriminate H.
  - destruct (items chunk) as [|x l] eqn:E; simpl.
    + split; [discriminate|].
      intros (c & r & H & Hne). injection H as Hc Hr. subst c r.
      now rewrite E in Hne.
    + split; [|reflexivity]. intros _. exists chunk, rest.
      split; [reflexivity|]. rewrite E. discriminate.
Qed.

Lemma attempts_started (hiddenSettings found : bool) configLineChunks :
  workersStarted hiddenSettings found configLineChunks ->
  attempts hiddenSettings found configLineChunks
  = flat_map (fun i => worker configLineChunks i 0) (seq 0 CONCURRENT).
Proof.
  intros (-> & H & ->). apply allDeployed_false_iff in H.
  unfold attempts. simpl. now rewrite H.
Qed.

Lemma attempts_not_started (hiddenSettings found : bool) configLineChunks :
  ~ workersStarted hiddenSettings found configLineChunks ->
  attempts hiddenSettings found configLineChunks = [].
Proof.
  intros H. unfold attempts.
  destruct hiddenSettings; simpl; [reflexivity|].
  destruct (allDeployed configLineChunks) eqn:E; [reflexivity|].
  destruct found; [|reflexivity].
  exfalso. apply H.
  split; [reflexivity|split; [now apply allDeployed_false_iff|reflexivity]].
Qed.

(** Inside the loop the [try] block fails only if the insertion or the
    update of the cache does. *)
Lemma tryFails_of_worker (rejected : nat -> bool) configLineChunks
  (i j k : nat) :
  In k (worker configLineChunks i j) ->
  tryFails rejected configLineChunks k = rejected k.
Proof.
  intros Hk. apply worker_In in Hk as [Hk _].
  unfold tryFails. rewrite total_spec.
  now destruct (Nat.leb_spec k (length configLineChunks)); [|lia].
Qed.

Lemma filter_length_Permutation {A} (f : A -> bool) (l l' : list A) :
  Permutation l l' -> length (filter f l) = length (filter f l').
Proof.
  induction 1 as [|x l l' _ IH|x y l|l l' l'' _ IH1 _ IH2]; simpl.
  - reflexivity.
  - destruct (f x); simpl; now rewrite IH.
  - destruct (f x), (f y); reflexivity.
  - now rewrite IH1.
Qed.

(** X21: When the workers are started, [progressCount] ends as the number of
    chunks and [errorCount] as the number of chunks whose insertion (or
    cache update) was rejected, each counted once; so [errorCount] is zero,
    and the error that ends the stage is not thrown, exactly when no chunk
    was rejected.  When they are not started (hidden settings, no items in
    the first chunk, or no candy machine found) nothing is counted. *)
Theorem errorCount_spec (rejected : nat -> bool)
  (hiddenSettings found : bool) configLineChunks :
  (workersStarted hiddenSettings found configLineChunks ->
   progressCount hiddenSettings found configLineChunks
   = length configLineChunks /\
   errorCount rejected hiddenSettings found configLineChunks
   = length (filter rejected (seq 0 (length configLineChunks))) /\
   (errorCount rejected hiddenSettings found configLineChunks = 0 <->
    forall k, k < length configLineChunks -> rejected k = false)) /\
  (~ workersStarted hiddenSettings found configLineChunks ->
   progressCount hiddenSettings found configLineChunks = 0 /\
   errorCount rejected hiddenSettings found configLineChunks = 0).
Proof.
  split.
  - intros Hs. unfold progressCount, errorCount.
    rewrite (attempts_started _ _ _ Hs).
    assert (length (filter (tryFails rejected configLineChunks)
              (flat_map (fun i => worker configLineChunks i 0)
                        (seq 0 CONCURRENT)))
            = length (filter rejected (seq 0 (length configLineChunks))))
      as Herr.
    { rewrite (filter_ext_in (tryFails rejected configLineChunks) rejected).
      - apply filter_length_Permutation, workers_Permutation.
      - intros k Hk. apply in_flat_map in Hk as [i [_ Hk]].
        now apply (tryFails_of_worker rejected configLineChunks i 0). }
    split; [|split; [exact Herr|]].
    + rewrite (Permutation_length (workers_Permutation configLineChunks)).
      apply length_seq.
    + rewrite Herr. rewrite length_zero_iff_nil. split.
      * intros Hnil k Hk.
        destruct (rejected k) eqn:E; [|reflexivity].
        assert (In k (filter rejected (seq 0 (length configLineChunks))))
          as Hin by (apply filter_In; split; [apply in_seq; lia|exact E]).
        rewrite Hnil in Hin. destruct Hin.
      * intros Hall.
        destruct (filter rejected (seq 0 (length configLineChunks)))
          as [|k l] eqn:E; [reflexivity|].
        assert (In k (filter rejected (seq 0 (length configLineChunks))))
          as Hin by (rewrite E; now left).
        apply filter_In in Hin as [Hin Hr]. apply in_seq in Hin.
        rewrite Hall in Hr by lia. discriminate Hr.
  - intros Hn. unfold progressCount, errorCount.
    rewrite (attempts_not_started _ _ _ Hn). split; reflexivity.
Qed.

(** X18: [getTotalConfigLinesUntilChunkN(n)] is the number of config lines in
    the chunks before position [n] when there are at least [n] chunks, and
    throws a [TypeError] when there are fewer. *)
Theorem getTotalConfigLinesUntilChunkN_spec configLineChunks (n : nat) :
  (n <= length configLineChunks ->
   getTotalConfigLinesUntilChunkN configLineChunks n
   = Ok (linesBefore configLineChunks n)) /\
  (length configLineChunks < n ->
   getTotalConfigLinesUntilChunkN configLineChunks n = Throw TypeError).
Proof.
  rewrite total_spec. split; intros H.
  - assert ((n <=? length configLineChunks) = true) as ->
      by (apply Nat.leb_le; lia).
    reflexivity.
  - assert ((n <=? length configLineChunks) = false) as ->
      by (apply Nat.leb_gt; lia).
    reflexivity.
Qed.

(** X19: When the workers are started, every chunk is worked on, and by one
    worker only: the positions of all the workers together are the
    positions of the chunks, each once.  When they are not started (hidden
    settings, no first chunk or no items in it, or no candy machine found)
    no chunk is worked on, whatever the later chunks hold.  The worker [i]
    has the positions whose remainder by [CONCURRENT] is [i], and no worker
    goes beyond the chunks. *)
Theorem attempts_each_chunk_once (hiddenSettings found : bool)
  configLineChunks :
  (workersStarted hiddenSettings found configLineChunks ->
   Permutation (attempts hiddenSettings found configLineChunks)
               (seq 0 (length configLineChunks))) /\
  (~ workersStarted hiddenSettings found configLineChunks ->
   attempts hiddenSettings found configLineChunks = []) /\
  (forall i k, i < CONCURRENT ->
     (In k (worker configLineChunks i 0) <->
      k < length configLineChunks /\ k mod CONCURRENT = i)).
Proof.
  split; [|split].
  - intros Hs. rewrite (attempts_started _ _ _ Hs).
    apply workers_Permutation.
  - apply attempts_not_started.
  - intros i k Hi. now apply worker_positions.
Qed.

(** X20: For every chunk a worker works on, the [itemsLoaded] it sends is the
    number of config lines in the chunks before it: the count never throws
    inside the loop. *)
Theorem itemsLoaded_of_attempt configLineChunks (i j k : nat) :
  In k (worker configLineChunks i j) ->
  getTotalConfigLinesUntilChunkN configLineChunks k
  = Ok (linesBefore configLineChunks k).
Proof.
  intros Hk. apply worker_In in Hk as [Hk _]. rewrite total_spec.
  assert ((k <=? length configLineChunks) = true) as ->
    by (apply Nat.leb_le; lia).
  reflexivity.
Qed.

End ConfigLines.

Section CheckItems.

Variable checkName : jsstring -> option jsstring.

Lemma complete_dec (entry : jsstring * CacheItem) :
  complete checkName entry <-> itemError checkName entry = None.
Proof.
  destruct entry as [index item]. unfold complete, itemError. simpl.
  destruct (truthy (name item)); simpl.
  - destruct (checkName (toStr (name item))).
    + split; [intros (_ & H & _); discriminate H|discriminate].
    + destruct (truthy (metadata_link item)); simpl.
      * tauto.
      * split; [intros (_ & _ & H); discriminate H|discriminate].
  - split; [intros (H & _); discriminate H|discriminate].
Qed.

Lemma checkItems_cons (entry : jsstring * CacheItem)
  (rest : list (jsstring * CacheItem)) :
  checkItems checkName (entry :: rest) =
  match itemError checkName entry with
  | Some message => Some message
  | None => checkItems checkName rest
  end.
Proof.
  destruct entry as [index item]. unfold itemError. simpl.
  destruct (truthy (name item)); simpl; [|reflexivity].
  destruct (checkName (toStr (name item))); [reflexivity|].
  now destruct (truthy (metadata_link item)).
Qed.

(** X22: The loop over the cache ends without an error exactly when every item
    has a non-empty name that [checkName] takes and a non-empty metadata
    link. *)
Theorem checkItems_passes_iff (items : list (jsstring * CacheItem)) :
  checkItems checkName items = None <-> Forall (complete checkName) items.
Proof.
  induction items as [|entry rest IH].
  - split; [constructor|reflexivity].
  - rewrite checkItems_cons, Forall_cons_iff, complete_dec, <- IH.
    destruct (itemError checkName entry); [|tauto].
    split; [discriminate|intros [H _]; discriminate H].
Qed.

(** X23: The loop stops at the first item that is not complete, in the order of
    the keys, and what it throws is about that item: its name is looked at
    first (missing, then refused by [checkName]), then its link; the items
    after it are not looked at. *)
Theorem checkItems_first_incomplete
  (good rest : list (jsstring * CacheItem)) (index : jsstring)
  (item : CacheItem) :
  Forall (complete checkName) good ->
  ~ complete checkName (index, item) ->
  checkItems checkName (good ++ (index, item) :: rest) =
  Some (if negb (truthy (name item))
        then lit "Missing name in metadata index " ++ index
        else match checkName (toStr (name item)) with
             | Some message => message
             | None => lit "Missing metadata link for cache item " ++ index
             end).
Proof.
  intros Hgood Hbad. induction Hgood as [|entry good He _ IH].
  - simpl. destruct (truthy (name item)) eqn:En; simpl; [|reflexivity].
    destruct (checkName (toStr (name item))) eqn:Ec; [reflexivity|].
    destruct (truthy (metadata_link item)) eqn:El; simpl; [|reflexivity].
    exfalso. apply Hbad. unfold complete. simpl. now rewrite En, Ec, El.
  - change ((entry :: good) ++ (index, item) :: rest)
      with (entry :: (good ++ (index, item) :: rest)).
    rewrite checkItems_cons.
    apply complete_dec in He. now rewrite He.
Qed.

End CheckItems.

(** X24: With each key once, as in an object, [cacheItemsSansCollection] is the
    number of items other than the collection item, the one under the key
    [-1]. *)
Theorem cacheItemsSansCollection_counts
  (items : list (jsstring * CacheItem)) :
  NoDup (map fst items) ->
  cacheItemsSansCollection items =
  Z.of_nat (length (filter (fun e => negb (streq (fst e) (lit "-1")))
                           items)).
Proof.
  unfold cacheItemsSansCollection, collectionInCache.
  induction items as [|[key item] items IH]; intros Hnd; [reflexivity|].
  inversion Hnd as [|k ks Hnotin Hnd']; subst.
  specialize (IH Hnd'). simpl fst. simpl existsb. simpl filter.
  destruct (streq key (lit "-1")) eqn:E; simpl negb; cbv iota.
  - apply streq_true_iff in E. subst key.
    assert (existsb (fun e => streq (fst e) (lit "-1")) items = false) as Hno.
    { destruct (existsb _ items) eqn:Ex; [|reflexivity].
      apply existsb_exists in Ex as [e [Hin He]].
      apply streq_true_iff in He. exfalso. apply Hnotin.
      rewrite <- He. now apply in_map. }
    rewrite Hno in IH. simpl orb. cbv iota.
    change (length ((lit "-1", item) :: items)) with (S (length items)).
    lia.
  - simpl orb.
    change (length ((key, item) :: items)) with (S (length items)).
    change (length ((key, item) :: filter
              (fun e => negb (streq (fst e) (lit "-1"))) items))
      with (S (length (filter
              (fun e => negb (streq (fst e) (lit "-1"))) items))).
    lia.
Qed.

(** X25: The headings count up to the total: the step of the config lines,
    shown when there are no hidden settings, carries the total as its
    number, and the total is two or three then, and one or two with hidden
    settings. *)
Theorem config_lines_step_is_last (candyMachinePkStr : jsval)
  (items : list (jsstring * CacheItem)) :
  stepNum candyMachinePkStr items = totalSteps candyMachinePkStr items false
  /\ (2 <= totalSteps candyMachinePkStr items false <= 3)%Z
  /\ (1 <= totalSteps candyMachinePkStr items true <= 2)%Z.
Proof.
  unfold stepNum, totalSteps, collectionStepNumber, collectionInCache, hidden.
  destruct (negb (truthy candyMachinePkStr));
    destruct (existsb (fun e => streq (fst e) (lit "-1")) items); lia.
Qed.

Lemma emptyFirstChunks_not_started (hiddenSettings found : bool) :
  ~ workersStarted hiddenSettings found emptyFirstChunks.
Proof.
  intros (_ & (chunk & rest & H & Hne) & _).
  injection H as <- _. now apply Hne.
Qed.

Lemma sampleChunks_started : workersStarted false true sampleChunks.
Proof.
  split; [reflexivity|split; [|reflexivity]].
  eexists _, _. split; [reflexivity|discriminate].
Qed.

Lemma attempts_each_chunk_once_witness :
  attempts false true emptyFirstChunks = [] /\
  Permutation (attempts false true sampleChunks) (seq 0 10).
Proof.
  destruct (attempts_each_chunk_once false true emptyFirstChunks)
    as (_ & Hn & _).
  destruct (attempts_each_chunk_once false true sampleChunks)
    as (Hs & _ & _).
  split.
  - apply Hn, emptyFirstChunks_not_started.
  - apply Hs, sampleChunks_started.
Defined.

Lemma errorCount_spec_witness :
  (progressCount false true emptyFirstChunks = 0 /\
   errorCount (fun _ => true) false true emptyFirstChunks = 0) /\
  (progressCount false true sampleChunks = 10 /\
   errorCount (fun k => k =? 3) false true sampleChunks = 1).
Proof.
  destruct (errorCount_spec (fun _ => true) false true emptyFirstChunks)
    as (_ & Hn).
  destruct (errorCount_spec (fun k => k =? 3) false true sampleChunks)
    as (Hs & _).
  split.
  - apply Hn, emptyFirstChunks_not_started.
  - destruct (Hs sampleChunks_started) as (Hp & He & _).
    split; [exact Hp|exact He].
Defined.

Lemma itemsLoaded_of_attempt_witness :
  In 9 (worker sampleChunks 1 0) /\
  getTotalConfigLinesUntilChunkN sampleChunks 9 = Ok 18.
Proof.
  assert (In 9 (worker sampleChunks 1 0)) as H
    by (vm_compute; right; now left).
  split; [exact H|].
  exact (itemsLoaded_of_attempt sampleChunks 1 0 9 H).
Defined.

Lemma checkItems_first_incomplete_witness :
  checkItems sampleCheckName sampleItems
  = Some (lit "Missing metadata link for cache item 1").
Proof.
  apply (checkItems_first_incomplete sampleCheckName
           [(lit "0",
             sampleItem (lit "Asset #0") (lit "https://arweave.net/0"))]
           [(lit "-1",
             sampleItem (lit "Collection") (lit "https://arweave.net/c"))]
           (lit "1") (sampleItem (lit "Asset #1") [])).
  - constructor; [|constructor]. unfold complete. repeat split; reflexivity.
  - intros (_ & _ & H). discriminate H.
Defined.

Lemma cacheItemsSansCollection_counts_witness :
  cacheItemsSansCollection sampleItems = 2%Z.
Proof.
  apply (cacheItemsSansCollection_counts sampleItems).
  vm_compute. repeat constructor; simpl; intuition discriminate.
Defined.

End ProcessDeployProofs.
